(** * Lock-in circular scraper: a shallow embedding of [circular-scraper.js]

    The development follows the JavaScript source function by function.
    Conventions of the embedding:

    - a JavaScript string is a [string] (a sequence of 8-bit code units);
    - a JavaScript number holding a share count is a [Z]; the source only
      adds, subtracts and compares such values, which is exact on doubles
      below 2^53;
    - the quotient behind [percentage] is an exact rational [Q];
    - [null]/[undefined] is [None];
    - a [throw] is the [Throw] constructor of [completion];
    - network, sub-process and library calls are fields of an environment
      record, and every call is logged in a trace. *)

From Stdlib Require Import ZArith QArith Qround Qabs List String Ascii Bool Lia Arith.
From Stdlib Require Import Sorted Permutation OrderedTypeEx.
Import ListNotations.

Local Open Scope string_scope.
Local Open Scope Z_scope.

(** ** Data model *)

(** An entry pushed on [lockInEntries]: [{ shares, isLocked, unlockDate }];
    [unlockDate] is an ISO-8601 string or [null]. *)
Record LockInEntry := mkEntry {
  shares : Z;
  isLocked : bool;
  unlockDate : option string
}.

(** An element of [unlockEvents]: [{ date, shares, percentage, label }];
    the [label] key is only present on the synthetic event. *)
Record UnlockEvent := mkEvent {
  date : option string;
  eshares : Z;
  percentage : Q;
  label : option string
}.

(** The object returned by [buildUnlockEvents]. *)
Record LockInData := mkData {
  totalShares : Z;
  unlockEvents : list UnlockEvent
}.

(** ** [Math.round] and the percentage expression *)

(** [Math.round x]: the integer nearest to [x], ties towards +infinity. *)
Definition Math_round (x : Q) : Z := Qfloor (x + (1 # 2))%Q.

(** [totalShares > 0 ? Math.round((shares / totalShares) * 1000) / 10 : 0] *)
Definition percentageOf (s total : Z) : Q :=
  if 0 <? total
  then (inject_Z (Math_round ((inject_Z s / inject_Z total) * 1000)) / 10)%Q
  else 0%Q.

(** ** The insertion-ordered [Map] of [buildUnlockEvents] *)

Definition JsMap := list (string * Z).

Fixpoint Map_get (m : JsMap) (k : string) : option Z :=
  match m with
  | [] => None
  | (k', v) :: m' => if String.eqb k' k then Some v else Map_get m' k
  end.

(** [Map.prototype.set]: an existing key keeps its position. *)
Fixpoint Map_set (m : JsMap) (k : string) (v : Z) : JsMap :=
  match m with
  | [] => [(k, v)]
  | (k', v') :: m' =>
      if String.eqb k' k then (k', v) :: m' else (k', v') :: Map_set m' k v
  end.

(** [x || 0] on the result of [Map.get]. *)
Definition orZero (o : option Z) : Z :=
  match o with Some v => v | None => 0 end.

(** JavaScript truthiness of a string-or-null value. *)
Definition truthy (o : option string) : bool :=
  match o with
  | None => false
  | Some s => negb (String.eqb s "")
  end.

(** ** [Array.prototype.sort] with the comparator
    [(a, b) => a[0].localeCompare(b[0])]

    The keys of a [Map] are pairwise distinct, so every sorting algorithm
    returns the same array; insertion sort is used here.  [localeCompare]
    is taken as the code-unit order [String.compare], with which it agrees
    on keys of the shape [YYYY-MM-DD]. *)
Fixpoint insertByKey (x : string * Z) (l : list (string * Z)) :=
  match l with
  | [] => [x]
  | y :: l' =>
      if String.leb (fst x) (fst y) then x :: y :: l' else y :: insertByKey x l'
  end.

Fixpoint sortByKey (l : list (string * Z)) :=
  match l with
  | [] => []
  | x :: l' => insertByKey x (sortByKey l')
  end.

(** ** [buildUnlockEvents] *)

(** One iteration of [for (const entry of lockInEntries)]; the state is
    [(unlockMap, notLockedShares)]. *)
Definition buildStep (st : JsMap * Z) (entry : LockInEntry) : JsMap * Z :=
  let '(unlockMap, notLockedShares) := st in
  if negb (isLocked entry) then (unlockMap, notLockedShares + shares entry)
  else if negb (truthy (unlockDate entry)) then st
  else
    match unlockDate entry with
    | Some d =>
        let dateKey := substring 0 10 d in
        (Map_set unlockMap dateKey
           (orZero (Map_get unlockMap dateKey) + shares entry),
         notLockedShares)
    | None => st
    end.

Definition datedEvent (total : Z) (kv : string * Z) : UnlockEvent :=
  {| date := Some (fst kv); eshares := snd kv;
     percentage := percentageOf (snd kv) total; label := None |}.

Definition freeEvent (total notLockedShares : Z) : UnlockEvent :=
  {| date := None; eshares := notLockedShares;
     percentage := percentageOf notLockedShares total;
     label := Some "Not under lock-in" |}.

Definition buildUnlockEvents (lockInEntries : list LockInEntry)
    (totalShares : Z) : LockInData :=
  let '(unlockMap, notLockedShares) :=
    fold_left buildStep lockInEntries ([], 0) in
  let unlockEvents := map (datedEvent totalShares) (sortByKey unlockMap) in
  let unlockEvents :=
    if 0 <? notLockedShares
    then freeEvent totalShares notLockedShares :: unlockEvents
    else unlockEvents in
  {| totalShares := totalShares; unlockEvents := unlockEvents |}.

(** ** Characters and [parseInt] *)

Definition code (a : ascii) : nat := nat_of_ascii a.

Definition inRange (lo hi : ascii) (a : ascii) : bool :=
  (code lo <=? code a)%nat && (code a <=? code hi)%nat.

(** [\d] *)
Definition isDigit (a : ascii) : bool := inRange "0" "9" a.
(** [[A-Z]] and [[a-z]] *)
Definition isUpper (a : ascii) : bool := inRange "A" "Z" a.
Definition isLower (a : ascii) : bool := inRange "a" "z" a.
(** [\w] *)
Definition isWord (a : ascii) : bool :=
  isDigit a || isUpper a || isLower a || Ascii.eqb a "_".
(** [\s] restricted to 8-bit code units: TAB, LF, VT, FF, CR, SP, NBSP *)
Definition isSpace (a : ascii) : bool :=
  ((9 <=? code a)%nat && (code a <=? 13)%nat)
  || (code a =? 32)%nat || (code a =? 160)%nat.
(** [[\d,]] *)
Definition isDigitOrComma (a : ascii) : bool := isDigit a || Ascii.eqb a ",".
(** [[\s-]] *)
Definition isSpaceOrHyphen (a : ascii) : bool := isSpace a || Ascii.eqb a "-".

Definition toLowerChar (a : ascii) : ascii :=
  if isUpper a then ascii_of_nat (code a + 32) else a.
Definition toUpperChar (a : ascii) : ascii :=
  if isLower a then ascii_of_nat (code a - 32) else a.

Fixpoint mapString (f : ascii -> ascii) (s : string) : string :=
  match s with
  | EmptyString => EmptyString
  | String a s' => String (f a) (mapString f s')
  end.

Definition toLowerCase := mapString toLowerChar.
Definition toUpperCase := mapString toUpperChar.

Definition digitVal (a : ascii) : Z := Z.of_nat (code a - code "0").

(** The longest prefix of decimal digits, read as a number. *)
Fixpoint readDigits (acc : Z) (seen : bool) (s : string) : option Z :=
  match s with
  | String a s' =>
      if isDigit a then readDigits (10 * acc + digitVal a) true s'
      else if seen then Some acc else None
  | EmptyString => if seen then Some acc else None
  end.

Fixpoint skipSpaces (s : string) : string :=
  match s with
  | String a s' => if isSpace a then skipSpaces s' else s
  | EmptyString => s
  end.

(** [parseInt(str, 10)]; [None] is [NaN]. *)
Definition parseInt (str : string) : option Z :=
  match skipSpaces str with
  | String "-" s' => option_map Z.opp (readDigits 0 false s')
  | String "+" s' => readDigits 0 false s'
  | s' => readDigits 0 false s'
  end.

(** [String.prototype.includes] *)
Fixpoint includes (s sub : string) : bool :=
  prefix sub s ||
  match s with
  | EmptyString => false
  | String _ s' => includes s' sub
  end.

(** [String.prototype.indexOf] for a single character. *)
Fixpoint indexOfChar (a : ascii) (s : string) : option nat :=
  match s with
  | EmptyString => None
  | String b s' =>
      if Ascii.eqb a b then Some O else option_map S (indexOfChar a s')
  end.

(** [str.substring(i)] for [i] within the string. *)
Definition substringFrom (i : nat) (s : string) : string :=
  substring i (String.length s - i) s.

(** [' '.repeat(n)] *)
Fixpoint spaces (n : nat) : string :=
  match n with O => "" | S n' => String " " (spaces n') end.

(** ** A backtracking matcher for the regular expressions of the source

    The constructors are the operators that occur in the regular
    expression literals of [circular-scraper.js]; [rmatch] follows the
    continuation-passing matcher of the ECMAScript specification (greedy
    quantifiers, ordered alternation, leftmost match). *)

Inductive regex :=
| Chr (p : ascii -> bool)                       (* a character class *)
| Eps
| Seq (r1 r2 : regex)
| Alt (r1 r2 : regex)                           (* r1|r2 *)
| Rep (lo : nat) (hi : option nat) (r : regex)  (* greedy r{lo,hi} *)
| Group (n : nat) (r : regex)                   (* capturing group n *)
| WordBoundary                                  (* \b *)
| NotBehind (p : ascii -> bool)                 (* (?<![...]) *)
| NotAhead (r : regex)                          (* (?!...) *)
| EndOfInput.                                   (* $ *)

(** A position in the subject: index, previous character, remaining text. *)
Record cursor := mkCursor {
  idx : nat;
  before : option ascii;
  rest : string
}.

Definition caps := list (nat * string).

Fixpoint capture (n : nat) (g : caps) : option string :=
  match g with
  | [] => None
  | (m, s) :: g' => if (m =? n)%nat then Some s else capture n g'
  end.

Definition isWordOpt (o : option ascii) : bool :=
  match o with Some a => isWord a | None => false end.

Definition headChar (s : string) : option ascii :=
  match s with String a _ => Some a | EmptyString => None end.

Definition predMax (hi : option nat) : option nat := option_map pred hi.

Definition isZeroMax (hi : option nat) : bool :=
  match hi with Some O => true | _ => false end.

Fixpoint rmatch (r : regex) (k : cursor -> caps -> option (cursor * caps))
    (c : cursor) (g : caps) {struct r} : option (cursor * caps) :=
  match r with
  | Chr p =>
      match rest c with
      | String a s' =>
          if p a then k (mkCursor (S (idx c)) (Some a) s') g else None
      | EmptyString => None
      end
  | Eps => k c g
  | Seq r1 r2 => rmatch r1 (fun c' g' => rmatch r2 k c' g') c g
  | Alt r1 r2 =>
      match rmatch r1 k c g with
      | Some z => Some z
      | None => rmatch r2 k c g
      end
  | Rep lo hi r' =>
      (fix loop (fuel : nat) (lo : nat) (hi : option nat)
           (c : cursor) (g : caps) {struct fuel} : option (cursor * caps) :=
         if isZeroMax hi then k c g
         else
           match fuel with
           | O => if (lo =? 0)%nat then k c g else None
           | S fuel' =>
               let d := fun c' g' =>
                 if (lo =? 0)%nat && (idx c' =? idx c)%nat then None
                 else loop fuel' (pred lo) (predMax hi) c' g' in
               if (lo =? 0)%nat
               then match rmatch r' d c g with
                    | Some z => Some z
                    | None => k c g
                    end
               else rmatch r' d c g
           end) (String.length (rest c) + lo + 1)%nat lo hi c g
  | Group n r' =>
      rmatch r'
        (fun c' g' => k c' ((n, substring 0 (idx c' - idx c) (rest c)) :: g'))
        c g
  | WordBoundary =>
      if xorb (isWordOpt (before c)) (isWordOpt (headChar (rest c)))
      then k c g else None
  | NotBehind p =>
      match before c with
      | Some a => if p a then None else k c g
      | None => k c g
      end
  | NotAhead r' =>
      match rmatch r' (fun c' g' => Some (c', g')) c g with
      | Some _ => None
      | None => k c g
      end
  | EndOfInput =>
      match rest c with
      | EmptyString => k c g
      | String _ _ => None
      end
  end.

(** The result of [RegExp.prototype.exec]: [index], the matched text
    ([match[0]]), the captures, and the cursor after the match. *)
Record rmatch_result := mkMatch {
  m_index : nat;
  m_text : string;
  m_caps : caps;
  m_end : cursor
}.

Definition grp (n : nat) (m : rmatch_result) : option string :=
  capture n (m_caps m).

(** The leftmost match at or after the cursor [(i, b, s)]. *)
Fixpoint searchFrom (r : regex) (i : nat) (b : option ascii) (s : string)
    {struct s} : option rmatch_result :=
  match rmatch r (fun c' g' => Some (c', g')) (mkCursor i b s) [] with
  | Some (c', g) => Some (mkMatch i (substring 0 (idx c' - i) s) g c')
  | None =>
      match s with
      | EmptyString => None
      | String a s' => searchFrom r (S i) (Some a) s'
      end
  end.

Definition startCursor (s : string) : cursor := mkCursor 0 None s.

(** [str.match(re)] / [re.exec(str)] for a non-global expression. *)
Definition regexExec (r : regex) (s : string) : option rmatch_result :=
  searchFrom r 0%nat None s.

(** [re.test(str)] *)
Definition regexTest (r : regex) (s : string) : bool :=
  match regexExec r s with Some _ => true | None => false end.

(** [str.search(re)]: the index of the first match, or -1. *)
Definition regexSearch (r : regex) (s : string) : Z :=
  match regexExec r s with Some m => Z.of_nat (m_index m) | None => -1 end.

(** One step past an empty match, as [lastIndex] is advanced by
    [String.prototype.replace] and [match]. *)
Definition advance (c : cursor) : option cursor :=
  match rest c with
  | EmptyString => None
  | String a s' => Some (mkCursor (S (idx c)) (Some a) s')
  end.

(** All matches of a global ([/g]) expression from the cursor on, as the
    loop [while ((m = re.exec(str)) !== null)] enumerates them.  Every
    round moves the cursor forward, so [S (length str)] rounds suffice. *)
Fixpoint matchesFrom (r : regex) (fuel : nat) (c : cursor)
    : list rmatch_result :=
  match fuel with
  | O => []
  | S fuel' =>
      match searchFrom r (idx c) (before c) (rest c) with
      | None => []
      | Some m =>
          m :: (if (idx (m_end m) =? m_index m)%nat
                then match advance (m_end m) with
                     | Some c' => matchesFrom r fuel' c'
                     | None => []
                     end
                else matchesFrom r fuel' (m_end m))
      end
  end.

Definition matchAll (r : regex) (s : string) : list rmatch_result :=
  matchesFrom r (S (String.length s)) (startCursor s).

(** [str.replace(re, f)] for a global expression: the text between the
    matches is kept, each match is replaced by [f match]. *)
Fixpoint replaceGo (f : rmatch_result -> string) (s : string) (pos : nat)
    (ms : list rmatch_result) : string :=
  match ms with
  | [] => substringFrom pos s
  | m :: ms' =>
      substring pos (m_index m - pos) s ++ f m
      ++ replaceGo f s (idx (m_end m)) ms'
  end.

Definition replaceAll (r : regex) (f : rmatch_result -> string) (s : string)
    : string :=
  replaceGo f s 0%nat (matchAll r s).

(** [str.replace(re, f)] for a non-global expression: first match only. *)
Definition replaceFirst (r : regex) (f : rmatch_result -> string) (s : string)
    : string :=
  match regexExec r s with
  | None => s
  | Some m => replaceGo f s 0%nat [m]
  end.

(** [$n] in a replacement template; an unmatched group gives the empty
    string. *)
Definition dollar (n : nat) (m : rmatch_result) : string :=
  match grp n m with Some s => s | None => "" end.

(** *** Building blocks for the literals *)

Definition chr (a : ascii) : regex := Chr (Ascii.eqb a).
Definition chrI (a : ascii) : regex :=
  Chr (fun b => Ascii.eqb (toLowerChar a) (toLowerChar b)).

Fixpoint lit (s : string) : regex :=
  match s with
  | EmptyString => Eps
  | String a s' => Seq (chr a) (lit s')
  end.

(** A literal under the [/i] flag. *)
Fixpoint litI (s : string) : regex :=
  match s with
  | EmptyString => Eps
  | String a s' => Seq (chrI a) (litI s')
  end.

Definition seqs (rs : list regex) : regex := fold_right Seq Eps rs.
Definition star (r : regex) : regex := Rep 0 None r.
Definition plus (r : regex) : regex := Rep 1 None r.
Definition opt (r : regex) : regex := Rep 0 (Some 1%nat) r.
Definition between (lo hi : nat) (r : regex) : regex := Rep lo (Some hi) r.
Definition atLeast (lo : nat) (r : regex) : regex := Rep lo None r.
Definition exactly (n : nat) (r : regex) : regex := Rep n (Some n) r.

(** ** Completions: a value or a thrown exception *)

Inductive completion (A : Type) : Type :=
| Return (a : A)
| Throw (msg : string).
Arguments Return {A} a.
Arguments Throw {A} msg.

Definition cbind {A B} (c : completion A) (f : A -> completion B)
    : completion B :=
  match c with
  | Return a => f a
  | Throw e => Throw e
  end.

Notation "x <- c ;; k" := (cbind c (fun x => k))
  (at level 61, c at next level, right associativity).

(** [for (const x of xs) body], threading the loop state. *)
Fixpoint forEachC {A S} (body : S -> A -> completion S) (xs : list A) (st : S)
    : completion S :=
  match xs with
  | [] => Return st
  | x :: xs' => st' <- body st x ;; forEachC body xs' st'
  end.

(** [arr.push(x)] *)
Definition push {A} (arr : list A) (x : A) : list A := (arr ++ [x])%list.

(** The first iteration of a loop that reaches [return]/[break]. *)
Fixpoint firstSome {A B} (f : A -> option B) (xs : list A) : option B :=
  match xs with
  | [] => None
  | x :: xs' =>
      match f x with
      | Some b => Some b
      | None => firstSome f xs'
      end
  end.

(** A stable sort, standing for [Array.prototype.sort] with a comparator
    whose sign is given by [le]. *)
Fixpoint insertSorted {A} (le : A -> A -> bool) (x : A) (l : list A) : list A :=
  match l with
  | [] => [x]
  | y :: l' => if le x y then x :: y :: l' else y :: insertSorted le x l'
  end.

Fixpoint sortBy {A} (le : A -> A -> bool) (l : list A) : list A :=
  match l with
  | [] => []
  | x :: l' => insertSorted le x (sortBy le l')
  end.

(** ** Numbers as strings *)

Definition digitChar (d : Z) : ascii := ascii_of_nat (48 + Z.to_nat d).

(** The [w] low-order decimal digits of [n]. *)
Fixpoint fixedDigits (w : nat) (n : Z) : string :=
  match w with
  | O => ""
  | S w' => fixedDigits w' (n / 10) ++ String (digitChar (n mod 10)) ""
  end.

Fixpoint decimalWidth (fuel : nat) (n : Z) : nat :=
  match fuel with
  | O => 1%nat
  | S fuel' => if n <? 10 then 1%nat else S (decimalWidth fuel' (n / 10))
  end.

(** [String(n)] for an integer [n]. *)
Definition numberToString (n : Z) : string :=
  let a := Z.abs n in
  let digits := fixedDigits (decimalWidth (Z.to_nat (Z.log2 a)) a) a in
  if n <? 0 then String "-" digits else digits.

Fixpoint zeros (n : nat) : string :=
  match n with O => "" | S n' => String "0" (zeros n') end.

(** [s.padStart(w, '0')] *)
Definition padStart (w : nat) (s : string) : string :=
  zeros (w - String.length s) ++ s.

(** ** The [Date] object

    A [Date] holds a time value: milliseconds since the epoch, or [NaN]
    (an invalid date), here [None].  Local time is UTC shifted by the
    host's zone offset [LocalTZA] (in milliseconds, positive east of
    Greenwich), taken as constant. *)

Definition msPerDay : Z := 86400000.
Definition maxTimeValue : Z := 8640000000000000.

Definition JsDate := option Z.

(** Day number (days since 1970-01-01) of a proleptic Gregorian date,
    month in 1..12. *)
Definition daysFromCivil (y m d : Z) : Z :=
  let y' := if m <=? 2 then y - 1 else y in
  let era := y' / 400 in
  let yoe := y' - era * 400 in
  let mp := (m + 9) mod 12 in
  let doy := (153 * mp + 2) / 5 + d - 1 in
  let doe := yoe * 365 + yoe / 4 - yoe / 100 + doy in
  era * 146097 + doe - 719468.

(** Year, month (1..12) and day of month of a day number. *)
Definition civilFromDays (z : Z) : Z * Z * Z :=
  let z' := z + 719468 in
  let era := z' / 146097 in
  let doe := z' - era * 146097 in
  let yoe := (doe - doe / 1460 + doe / 36524 - doe / 146096) / 365 in
  let y := yoe + era * 400 in
  let doy := doe - (365 * yoe + yoe / 4 - yoe / 100) in
  let mp := (5 * doy + 2) / 153 in
  let d := doy - (153 * mp + 2) / 5 + 1 in
  let m := if mp <? 10 then mp + 3 else mp - 9 in
  (if m <=? 2 then y + 1 else y, m, d).

(** [MakeDay(year, month, date)] of the language specification: [month]
    is 0-based and unbounded, [date] is unbounded. *)
Definition MakeDay (year month dt : Z) : Z :=
  daysFromCivil (year + month / 12) (month mod 12 + 1) 1 + dt - 1.

Definition TimeClip (t : Z) : JsDate :=
  if Z.abs t <=? maxTimeValue then Some t else None.

Definition Day (t : Z) : Z := t / msPerDay.
Definition TimeWithinDay (t : Z) : Z := t mod msPerDay.

Definition yearOf (ymd : Z * Z * Z) : Z := fst (fst ymd).
Definition monthOf (ymd : Z * Z * Z) : Z := snd (fst ymd).
Definition dayOf (ymd : Z * Z * Z) : Z := snd ymd.

(** The year field of [toISOString]: four digits, or a sign and six. *)
Definition isoYear (y : Z) : string :=
  if (0 <=? y) && (y <=? 9999) then fixedDigits 4 y
  else String (if y <? 0 then "-"%char else "+"%char) (fixedDigits 6 (Z.abs y)).

(** [toISOString] of a valid time value: [YYYY-MM-DDTHH:mm:ss.sssZ]. *)
Definition isoString (t : Z) : string :=
  let ymd := civilFromDays (Day t) in
  let ms := TimeWithinDay t in
  isoYear (yearOf ymd) ++ "-" ++ fixedDigits 2 (monthOf ymd) ++ "-"
  ++ fixedDigits 2 (dayOf ymd) ++ "T"
  ++ fixedDigits 2 (ms / 3600000) ++ ":"
  ++ fixedDigits 2 (ms / 60000 mod 60) ++ ":"
  ++ fixedDigits 2 (ms / 1000 mod 60) ++ "."
  ++ fixedDigits 3 (ms mod 1000) ++ "Z".

(** [Date.prototype.toISOString]: a [RangeError] on an invalid date. *)
Definition toISOString (d : JsDate) : completion string :=
  match d with
  | Some t => Return (isoString t)
  | None => Throw "RangeError: Invalid time value"
  end.

Section Host.

Variable LocalTZA : Z.

Definition LocalTime (t : Z) : Z := t + LocalTZA.
Definition UTC (t : Z) : Z := t - LocalTZA.

(** [new Date(year, month, day)]: local midnight; a year in 0..99 means
    1900 + year. *)
Definition newDate (year month day : Z) : JsDate :=
  let yr := if (0 <=? year) && (year <=? 99) then 1900 + year else year in
  TimeClip (UTC (MakeDay yr month day * msPerDay)).

Definition localFields (t : Z) : Z * Z * Z := civilFromDays (Day (LocalTime t)).

(** [getFullYear], [getMonth] (0-based) and [getDate] of a valid date. *)
Definition getFullYear (t : Z) : Z := yearOf (localFields t).
Definition getMonth (t : Z) : Z := monthOf (localFields t) - 1.
Definition getDate (t : Z) : Z := dayOf (localFields t).

(** [d.setDate(dt)] on a valid date: the day of month is replaced, the
    local time of day is kept. *)
Definition setDate (t : Z) (dt : Z) : JsDate :=
  let lt := LocalTime t in
  TimeClip (UTC (MakeDay (getFullYear t) (getMonth t) dt * msPerDay
                 + TimeWithinDay lt)).

(** [formatDateForNotice]; the fields of an invalid date are [NaN]. *)
Definition formatDateForNotice (d : JsDate) : string :=
  match d with
  | Some t =>
      let y := numberToString (getFullYear t) in
      let m := padStart 2 (numberToString (getMonth t + 1)) in
      let dd := padStart 2 (numberToString (getDate t)) in
      y ++ m ++ dd
  | None => "NaNNaNNaN"
  end.

End Host.

(** ** Utility functions of the source *)

Definition LF : ascii := "010"%char.

Definition digit : regex := Chr isDigit.
Definition wordChar : regex := Chr isWord.
Definition space : regex := Chr isSpace.

Fixpoint removeChar (a : ascii) (s : string) : string :=
  match s with
  | EmptyString => EmptyString
  | String b s' =>
      if Ascii.eqb a b then removeChar a s' else String b (removeChar a s')
  end.

(** [parseIndianNumber]: [parseInt(str.replace(/,/g, ''), 10) || 0]. *)
Definition parseIndianNumber (str : option string) : Z :=
  match str with
  | None => 0
  | Some s =>
      if String.eqb s "" then 0
      else match parseInt (removeChar "," s) with
           | Some n => n
           | None => 0
           end
  end.

Fixpoint revString (acc s : string) : string :=
  match s with
  | EmptyString => acc
  | String a s' => revString (String a acc) s'
  end.

(** [String.prototype.trim] *)
Definition trim (s : string) : string :=
  revString "" (skipSpaces (revString "" (skipSpaces s))).

(** The [months] table of [parseBSEDate]; [None] is [undefined]. *)
Definition months (key : string) : option Z :=
  if String.eqb key "jan" then Some 0
  else if String.eqb key "feb" then Some 1
  else if String.eqb key "mar" then Some 2
  else if String.eqb key "apr" then Some 3
  else if String.eqb key "may" then Some 4
  else if String.eqb key "jun" then Some 5
  else if String.eqb key "jul" then Some 6
  else if String.eqb key "aug" then Some 7
  else if String.eqb key "sep" then Some 8
  else if String.eqb key "oct" then Some 9
  else if String.eqb key "nov" then Some 10
  else if String.eqb key "dec" then Some 11
  else None.

(** [(\d{1,2})-(\w{3,}|\d{1,2})-(\d{4})] with groups [g], [g+1], [g+2] *)
Definition dateHyphen (g : nat) : regex :=
  seqs [Group g (between 1 2 digit); chr "-";
        Group (g + 1) (Alt (atLeast 3 wordChar) (between 1 2 digit)); chr "-";
        Group (g + 2) (exactly 4 digit)].

(** [(\d{1,2})SEP(\d{1,2})SEP(\d{4})] with groups [g], [g+1], [g+2] *)
Definition dateNumeric (sep : ascii) (g : nat) : regex :=
  seqs [Group g (between 1 2 digit); chr sep;
        Group (g + 1) (between 1 2 digit); chr sep;
        Group (g + 2) (exactly 4 digit)].

(** The date expression of [parseUniversalBSEFormat] and [findDateNear]:
    hyphen form, then dotted, then slashed. *)
Definition dateRegex : regex :=
  Alt (dateHyphen 1) (Alt (dateNumeric "." 4) (dateNumeric "/" 7)).

(** The first expression of [parseBSEDate]: dotted, slashed, hyphen. *)
Definition bseDateRegex : regex :=
  Alt (dateNumeric "." 1) (Alt (dateNumeric "/" 4) (dateHyphen 7)).

(** [a || b || c] on capture groups. *)
Definition firstGroup (m : rmatch_result) (a b c : nat) : option string :=
  match grp a m with
  | Some s => Some s
  | None => match grp b m with
            | Some s => Some s
            | None => grp c m
            end
  end.

Section Parser.

Variable LocalTZA : Z.

(** [parseBSEDate]: [None] is [null], [Some d] a [Date] object (possibly
    invalid). *)
Definition parseBSEDate (dateStr : string) : option JsDate :=
  if String.eqb dateStr "" then None
  else
    match regexExec bseDateRegex dateStr with
    | Some m =>
        match firstGroup m 1 4 7, firstGroup m 2 5 8, firstGroup m 3 6 9 with
        | Some dayStr, Some monthStr, Some yearStr =>
            let month :=
              match parseInt monthStr with
              | Some n => Some (n - 1)
              | None => months (substring 0 3 (toLowerCase monthStr))
              end in
            match parseInt dayStr, month, parseInt yearStr with
            | Some day, Some month, Some year =>
                Some (newDate LocalTZA year month day)
            | _, _, _ => None
            end
        | _, _, _ => None
        end
    | None =>
        let cleaned :=
          replaceAll
            (Chr (fun a => negb (isWord a || isDigit a || Ascii.eqb a "-")))
            (fun m => if String.eqb (m_text m) "-" then "-" else "")
            (replaceFirst (litI "Aoril") (fun _ => "April")
               (replaceFirst (litI "Mav") (fun _ => "May")
                  (replaceFirst (Seq (litI "Aul!") (opt (chr ".")))
                     (fun _ => "Aug") dateStr))) in
        match regexExec (dateHyphen 1) cleaned with
        | None => None
        | Some m =>
            let monthStr := toLowerCase (dollar 2 m) in
            let monthIdx :=
              match parseInt monthStr with
              | Some n => Some (n - 1)
              | None => months (substring 0 3 monthStr)
              end in
            match monthIdx, parseInt (dollar 1 m), parseInt (dollar 3 m) with
            | Some monthIdx, Some day, Some year =>
                Some (newDate LocalTZA year monthIdx day)
            | _, _, _ => None
            end
        end
    end.

(** [unlockDate ? unlockDate.toISOString() : null] *)
Definition isoOrNull (d : option JsDate) : completion (option string) :=
  match d with
  | None => Return None
  | Some d' => s <- toISOString d' ;; Return (Some s)
  end.

(** ** [findDateNear] *)

Definition timeLe (a b : Z * nat) : bool := fst a <=? fst b.
Definition indexLe (a b : Z * nat) : bool := (snd a <=? snd b)%nat.

(** The dates kept by the loop of [findDateNear]: valid, with a local
    year after 2000; each with the index of its match. *)
Definition nearDates (chunk : string) : list (Z * nat) :=
  flat_map
    (fun m =>
       match parseBSEDate (m_text m) with
       | Some (Some t) =>
           if 2000 <? getFullYear LocalTZA t then [(t, m_index m)] else []
       | _ => []
       end)
    (matchAll dateRegex chunk).

Definition findDateNear (text : string) (startIndex range : nat)
    : option string :=
  let chunk := substring startIndex (Nat.min range 60) text in
  let chunk :=
    match indexOfChar LF chunk with
    | Some (S n) => substring 0 (S n) chunk
    | _ => chunk
    end in
  let rowDates := sortBy timeLe (sortBy indexLe (nearDates chunk)) in
  match rev rowDates with
  | [] => None
  | (t, _) :: _ => Some (isoString t)
  end.

(** ** [parseNSEFormat] and [parseNSEFallback] *)

(** [/([\d,]+)\s+[\d,]+\s+[\d,]+\s+((?:\d{1,2}-\w{3,}-\d{4})|Free)/gi] *)
Definition lineRegex : regex :=
  seqs [Group 1 (plus (Chr isDigitOrComma)); plus space;
        plus (Chr isDigitOrComma); plus space;
        plus (Chr isDigitOrComma); plus space;
        Group 2 (Alt (seqs [between 1 2 digit; chr "-"; atLeast 3 wordChar;
                            chr "-"; exactly 4 digit])
                     (litI "Free"))].

(** [/Annexure[\s-]*I?\b/i] *)
Definition annexureRegex : regex :=
  seqs [litI "Annexure"; star (Chr isSpaceOrHyphen); opt (chrI "I");
        WordBoundary].

(** [/Lock[\s-]*in[\s]*(?:up[\s]*to|details)/i] *)
Definition lockInRegex : regex :=
  seqs [litI "Lock"; star (Chr isSpaceOrHyphen); litI "in"; star space;
        Alt (seqs [litI "up"; star space; litI "to"]) (litI "details")].

Definition ParseState : Type := list LockInEntry * Z.

(** The body of [while ((match = lineRegex.exec(section)) !== null)]. *)
Definition nseLineStep (st : ParseState) (m : rmatch_result)
    : completion ParseState :=
  let '(lockInEntries, totalShares) := st in
  let shares := parseIndianNumber (grp 1 m) in
  let lockInfo := trim (dollar 2 m) in
  if shares <=? 0 then Return st
  else
    let totalShares := totalShares + shares in
    if String.eqb (toLowerCase lockInfo) "free"
    then Return (push lockInEntries (mkEntry shares false None), totalShares)
    else
      unlockDate <- isoOrNull (parseBSEDate lockInfo) ;;
      Return (push lockInEntries (mkEntry shares true unlockDate), totalShares).

(** [text.split(/\n/)] *)
Fixpoint splitLines (cur : string) (s : string) : list string :=
  match s with
  | EmptyString => [revString "" cur]
  | String a s' =>
      if Ascii.eqb a LF then revString "" cur :: splitLines "" s'
      else splitLines (String a cur) s'
  end.

(** The body of [for (const seg of segments)] in [parseNSEFallback]. *)
Definition nseFallbackStep (st : ParseState) (seg : string)
    : completion ParseState :=
  let '(entries, total) := st in
  let nums := matchAll (atLeast 3 (Chr isDigitOrComma)) seg in
  let dateMatch :=
    regexExec (Group 1 (seqs [between 1 2 digit; chr "-"; atLeast 3 wordChar;
                              chr "-"; exactly 4 digit])) seg in
  let isFree := regexTest (seqs [WordBoundary; litI "Free"; WordBoundary]) seg in
  match nums with
  | [] => Return st
  | n0 :: _ =>
      match dateMatch, isFree with
      | None, false => Return st
      | _, _ =>
          let shares := parseIndianNumber (Some (m_text n0)) in
          if shares <=? 0 then Return st
          else
            let total := total + shares in
            if isFree
            then Return (push entries (mkEntry shares false None), total)
            else
              match dateMatch with
              | Some dm =>
                  unlockDate <- isoOrNull (parseBSEDate (dollar 1 dm)) ;;
                  Return (push entries (mkEntry shares true unlockDate), total)
              | None => Return (entries, total)
              end
      end
  end.

(** The entries and total that [parseNSEFallback] hands to
    [buildUnlockEvents]. *)
Definition nseFallbackEntries (text : string) (existingTotal : Z)
    (existingEntries : list LockInEntry) : completion ParseState :=
  forEachC nseFallbackStep (splitLines "" text)
    (existingEntries, existingTotal).

Definition parseNSEFallback (text : string) (existingTotal : Z)
    (existingEntries : list LockInEntry) : completion LockInData :=
  st <- nseFallbackEntries text existingTotal existingEntries ;;
  Return (buildUnlockEvents (fst st) (snd st)).

(** [text.substring(startPos)] with
    [startPos = Math.max(annexureStart, lockInStart, 0)]. *)
Definition nseSection (text : string) : string :=
  let annexureStart := regexSearch annexureRegex text in
  let lockInStart := regexSearch lockInRegex text in
  let startPos := Z.max (Z.max annexureStart lockInStart) 0 in
  substringFrom (Z.to_nat startPos) text.

(** The entries and total that [parseNSEFormat] hands to
    [buildUnlockEvents], directly or through [parseNSEFallback]. *)
Definition nseEntries (text : string) : completion ParseState :=
  let section := nseSection text in
  st <- forEachC nseLineStep (matchAll lineRegex section) ([], 0) ;;
  if (List.length (fst st) <? 2)%nat
  then nseFallbackEntries section (snd st) (fst st)
  else Return st.

Definition parseNSEFormat (text : string) : completion LockInData :=
  let section := nseSection text in
  st <- forEachC nseLineStep (matchAll lineRegex section) ([], 0) ;;
  if (List.length (fst st) <? 2)%nat
  then parseNSEFallback section (snd st) (fst st)
  else Return (buildUnlockEvents (fst st) (snd st)).

End Parser.

(** ** [parseUniversalBSEFormat] *)

(** An element of [nums]: [{ val, rawStr, index, strLength }]. *)
Record NumTok := mkNum {
  val : Z;
  rawStr : string;
  index : nat;
  strLength : nat
}.

(** [s.length > 1 && s.startsWith('0')] *)
Definition leadingZero (s : string) : bool :=
  (1 <? String.length s)%nat && prefix "0" s.

(** [findMathTripletInString]: the first split [A|B|C] of [str], in the
    order of the two nested loops, with [A === C - B + 1 && A > 100]. *)
Definition findMathTripletInString (str : string) : option (Z * Z * Z) :=
  let len := String.length str in
  firstSome
    (fun i =>
       firstSome
         (fun j =>
            let A_str := substring 0 i str in
            let B_str := substring i (j - i) str in
            let C_str := substring j (len - j) str in
            if leadingZero A_str || leadingZero B_str || leadingZero C_str
            then None
            else
              match parseInt A_str, parseInt B_str, parseInt C_str with
              | Some A, Some B, Some C =>
                  if (A =? C - B + 1) && (100 <? A) then Some (A, B, C)
                  else None
              | _, _, _ => None
              end)
         (seq (i + 1) (len - 1 - i)))
    (seq 1 (len - 2)).

(** [findMathPairInString]: the first split [B|C] with [A === C - B + 1]. *)
Definition findMathPairInString (str : string) (A : Z) : option (Z * Z) :=
  let len := String.length str in
  firstSome
    (fun i =>
       let B_str := substring 0 i str in
       let C_str := substring i (len - i) str in
       if leadingZero B_str || leadingZero C_str then None
       else
         match parseInt B_str, parseInt C_str with
         | Some B, Some C => if A =? C - B + 1 then Some (B, C) else None
         | _, _ => None
         end)
    (seq 1 (len - 1)).

(** [/([A-Z][a-z]{2,8})\s+(\d{1,2}),\s+(\d{4})/g] *)
Definition monthDayYearRegex : regex :=
  seqs [Group 1 (Seq (Chr isUpper) (between 2 8 (Chr isLower))); plus space;
        Group 2 (between 1 2 digit); chr ","; plus space;
        Group 3 (exactly 4 digit)].

(** [/(?<![\d,])(\d{1,3}(?:,\d{2,3})+|\d+)(?![\d,])/g] *)
Definition numRegex : regex :=
  seqs [NotBehind isDigitOrComma;
        Group 1 (Alt (Seq (between 1 3 digit)
                          (plus (Seq (chr ",") (between 2 3 digit))))
                     (plus digit));
        NotAhead (Chr isDigitOrComma)].

(** The loop filling [nums]. *)
Definition scanNums (textForNums : string) : list NumTok :=
  flat_map
    (fun m =>
       let valStr := dollar 1 m in
       let rawStr := removeChar "," valStr in
       match parseInt rawStr with
       | Some val =>
           if 0 <? val
           then [mkNum val rawStr (m_index m) (String.length valStr)]
           else []
       | None => []
       end)
    (matchAll numRegex textForNums).

(** The mutable state of the main loop. *)
Record BseState := mkBse {
  usedIndices : list nat;
  bseEntries : list LockInEntry;
  totalSharesParsed : Z
}.

Definition has (s : list nat) (i : nat) : bool := existsb (Nat.eqb i) s.

(** What a rule that fires determines: the share count, the token after
    which the date is looked up, and the indices it consumes. *)
Definition Hit : Type := Z * NumTok * list nat.

Section BseParser.

Variable LocalTZA : Z.
Variable text : string.
Variable nums : list NumTok.

(** The common tail of every rule: look up the date, push the entry, add
    to the total, mark the indices. *)
Definition emit (st : BseState) (h : Hit) : BseState :=
  let '(A, tok, consumed) := h in
  let date := findDateNear LocalTZA text (index tok + strLength tok) 120 in
  {| usedIndices := (consumed ++ usedIndices st)%list;
     bseEntries := push (bseEntries st) (mkEntry A (truthy date) date);
     totalSharesParsed := totalSharesParsed st + A |}.

(** Rule 1: a completely glued triplet in [nums[i]]. *)
Definition gluedTriplet (i : nat) (ti : NumTok) : option Hit :=
  if (8 <=? String.length (rawStr ti))%nat
  then match findMathTripletInString (rawStr ti) with
       | Some (A, _, _) => Some (A, ti, [i])
       | None => None
       end
  else None.

(** Rule 1.5: [A] and [B] glued in [nums[i]], [C] one of the next two. *)
Definition gluedAB (used : list nat) (i : nat) (ti : NumTok) : option Hit :=
  if (2 <=? String.length (rawStr ti))%nat
  then
    firstSome
      (fun j =>
         if has used j then None
         else
           match nth_error nums j with
           | None => None
           | Some tj =>
               let C := val tj in
               let strAB := rawStr ti in
               firstSome
                 (fun split =>
                    let A_str := substring 0 split strAB in
                    let B_str := substringFrom split strAB in
                    if leadingZero A_str || leadingZero B_str then None
                    else
                      match parseInt A_str, parseInt B_str with
                      | Some A_val, Some B_val =>
                          if (A_val =? C - B_val + 1) && (100 <? A_val)
                          then Some (A_val, tj, [i; j])
                          else None
                      | _, _ => None
                      end)
                 (seq 1 (String.length strAB - 1))
           end)
      (seq (i + 1) (Nat.min (i + 3) (List.length nums) - (i + 1)))
  else None.

(** The look-ahead for [B] and [C] (rule 2, the implicit [From = 1]
    rule, and the exact triplet). *)
Definition lookAhead (used : list nat) (i : nat) (A : Z) : option Hit :=
  firstSome
    (fun j =>
       if has used j then None
       else
         match nth_error nums j with
         | None => None
         | Some tj =>
             let pair :=
               if (5 <=? String.length (rawStr tj))%nat
               then findMathPairInString (rawStr tj) A
               else None in
             match pair with
             | Some _ => Some (A, tj, [i; j])
             | None =>
                 let B := val tj in
                 if (A =? B) || (A =? B - 1) then Some (A, tj, [i; j])
                 else
                   firstSome
                     (fun k =>
                        if has used k then None
                        else
                          match nth_error nums k with
                          | None => None
                          | Some tk =>
                              let C := val tk in
                              if A =? C - B + 1
                              then Some (A, tk, [i; j; k])
                              else None
                          end)
                     (seq (j + 1)
                        (Nat.min (j + 10) (List.length nums) - (j + 1)))
             end
         end)
    (seq (i + 1) (Nat.min (i + 15) (List.length nums) - (i + 1))).

(** The body of [for (let i = 0; i < nums.length; i++)]. *)
Definition bseStep (st : BseState) (i : nat) : BseState :=
  if has (usedIndices st) i then st
  else
    match nth_error nums i with
    | None => st
    | Some ti =>
        match gluedTriplet i ti with
        | Some h => emit st h
        | None =>
            match gluedAB (usedIndices st) i ti with
            | Some h => emit st h
            | None =>
                let A := val ti in
                if A <? 1000 then st
                else
                  match lookAhead (usedIndices st) i A with
                  | Some h => emit st h
                  | None => st
                  end
            end
        end
    end.

(** The inner loop of the proximity fallback: the value of the nearest
    eligible number that ends before [dmIndex]. *)
Definition closestStep (dmIndex : nat) (acc : Z * Z) (num : NumTok) : Z * Z :=
  let '(closestNum, minDiff) := acc in
  if (val num <? 1000) || (10 <=? String.length (rawStr num))%nat then acc
  else
    let diff := Z.of_nat dmIndex - Z.of_nat (index num + strLength num) in
    if (0 <? diff) && (diff <? minDiff) then (val num, diff) else acc.

(** The body of [while ((dm = dateRegex.exec(text)) !== null)]. *)
Definition proximityStep (st : ParseState) (dm : rmatch_result)
    : completion ParseState :=
  match parseBSEDate LocalTZA (m_text dm) with
  | None => Return st
  | Some parsedDate =>
      let closestNum :=
        fst (fold_left (closestStep (m_index dm)) nums (0, 1000)) in
      if 0 <? closestNum
      then
        iso <- toISOString parsedDate ;;
        Return (push (fst st) (mkEntry closestNum true (Some iso)),
                snd st + closestNum)
      else Return st
  end.

End BseParser.

Section Extractor.

Variable LocalTZA : Z.

(** The date-normalised [text] of [parseUniversalBSEFormat]. *)
Definition bseText (norm : string) : string :=
  replaceAll monthDayYearRegex
    (fun m => dollar 2 m ++ "-" ++ dollar 1 m ++ "-" ++ dollar 3 m) norm.

(** [textForNums]: every date replaced by blanks of the same length. *)
Definition maskDates (text : string) : string :=
  replaceAll dateRegex (fun m => spaces (String.length (m_text m))) text.

(** The entries and total that [parseUniversalBSEFormat] hands to
    [buildUnlockEvents]. *)
Definition bseEntriesOf (norm : string) : completion ParseState :=
  let text := bseText norm in
  let nums := scanNums (maskDates text) in
  let st :=
    fold_left (bseStep LocalTZA text nums) (seq 0 (List.length nums))
      (mkBse [] [] 0) in
  if (List.length (bseEntries st) =? 0)%nat
  then forEachC (proximityStep LocalTZA nums) (matchAll dateRegex text)
         (bseEntries st, totalSharesParsed st)
  else Return (bseEntries st, totalSharesParsed st).

Definition parseUniversalBSEFormat (norm : string) : completion LockInData :=
  st <- bseEntriesOf norm ;;
  Return (buildUnlockEvents (fst st) (snd st)).

(** *** [parseLockInData], from the text that [pdf-parse] extracted *)

(** [/(\d{1,2})-\s*\n\s*(\w{3,})-\s*\n?\s*(\d{4})/g] *)
Definition brokenDateRegex1 : regex :=
  seqs [Group 1 (between 1 2 digit); chr "-"; star space; chr LF; star space;
        Group 2 (atLeast 3 wordChar); chr "-"; star space; opt (chr LF);
        star space; Group 3 (exactly 4 digit)].

(** [/(\d{1,2})-\s*\n\s*(\w{3,})-(\d{4})/g] *)
Definition brokenDateRegex2 : regex :=
  seqs [Group 1 (between 1 2 digit); chr "-"; star space; chr LF; star space;
        Group 2 (atLeast 3 wordChar); chr "-"; Group 3 (exactly 4 digit)].

Definition joinDate (m : rmatch_result) : string :=
  dollar 1 m ++ "-" ++ dollar 2 m ++ "-" ++ dollar 3 m.

(** [text] after the two date-joining replacements. *)
Definition joinBrokenDates (text : string) : string :=
  replaceAll brokenDateRegex2 joinDate
    (replaceAll brokenDateRegex1 joinDate text).

(** [text.replace(/\s+/g, ' ')] *)
Definition normalizeWhitespace (text : string) : string :=
  replaceAll (plus space) (fun _ => " ") text.

Definition isNSEFormat (norm : string) : bool :=
  includes norm "Lock in up to" || includes norm "Lock in upto".

(** The entries and total behind the result of [parseLockInData]. *)
Definition lockInEntriesOf (extracted : string) : completion ParseState :=
  let text := joinBrokenDates extracted in
  let norm := normalizeWhitespace text in
  if isNSEFormat norm then nseEntries LocalTZA norm
  else bseEntriesOf text.

(** [parseLockInData], after [const data = await pdf(pdfBuffer)] with
    [extracted = data.text]. *)
Definition parseLockInData (extracted : string) : completion LockInData :=
  let text := joinBrokenDates extracted in
  let norm := normalizeWhitespace text in
  if isNSEFormat norm then parseNSEFormat LocalTZA norm
  else parseUniversalBSEFormat text.

End Extractor.

(** ** The Locator and the Retriever

    Network requests, the [curl] sub-process and the PDF/ZIP/HTML
    libraries are outside the program: their answers are the fields of
    [World], and every call is appended to a trace of [Effect]s. *)

Definition Buffer := list Byte.byte.

(** A row of [resp.data.data] in the NSE circulars API. *)
Record NseRow := mkNseRow {
  fileDept : string;
  fileExt : string;
  sub : option string;
  circNumber : string;
  circFilelink : option string;
  circDisplayNo : string
}.

(** The object returned by [findNSECircular]. *)
Record NseCircular := mkNseCircular {
  nc_circNumber : string;
  zipUrl : option string;
  subject : option string;
  displayNo : string
}.

(** The object returned by [checkNotice] and [searchBSESMENotices]:
    [{ noticeId, annexureUrl, title }]. *)
Record BseNotice := mkBseNotice {
  noticeId : string;
  annexureUrl : option string;
  title : string
}.

Inductive Effect :=
| NseApiRequest (fromDate toDate : string)
| NseZipDownload (url : string)
| PdfParse (buf : Buffer)
| SmeNoticeSearch (searchWords : list string)
| BseSessionRequest
| NoticeProbe (id : string) (normalizedSearch : string)
| AxiosPdfRequest (url : string)
| CurlPdfRequest (url : string).

Record World := mkWorld {
  (** [new Date(isoString)] *)
  Date_parse : string -> JsDate;
  (** [new Date().toISOString()] *)
  nowISO : string;
  (** [axios.get('https://www.nseindia.com/api/circulars', ...)]:
      [resp.data.data], absent, or a thrown error *)
  nseApi : string -> string -> completion (option (list NseRow));
  (** [downloadNSEAnnexure] *)
  nseAnnexure : string -> completion (option Buffer);
  (** [pdf(pdfBuffer)], its [text] field *)
  pdfText : Buffer -> completion string;
  (** [searchBSESMENotices] *)
  smeSearch : list string -> option BseNotice;
  (** [checkNotice] *)
  noticeProbe : string -> string -> option BseNotice;
  (** [axios.get(pdfUrl, ...)] of [downloadBSEPDF]: status and body; a
      network error or a status of 500 and above is thrown *)
  axiosPdf : string -> completion (Z * Buffer);
  (** [curlFetchBinary] *)
  curlFetchBinary : string -> option Buffer
}.

(** Computations that may call the world and may throw. *)
Definition IO (A : Type) : Type := list Effect -> completion A * list Effect.

Definition ret {A} (a : A) : IO A := fun tr => (Return a, tr).

Definition throwIO {A} (msg : string) : IO A := fun tr => (Throw msg, tr).

Definition bindIO {A B} (m : IO A) (f : A -> IO B) : IO B :=
  fun tr =>
    match m tr with
    | (Return a, tr') => f a tr'
    | (Throw e, tr') => (Throw e, tr')
    end.

(** [try { m } catch (e) { h e }] *)
Definition tryCatch {A} (m : IO A) (h : string -> IO A) : IO A :=
  fun tr =>
    match m tr with
    | (Throw e, tr') => h e tr'
    | r => r
    end.

(** A call to the world: log it, return its answer. *)
Definition perform {A} (e : Effect) (answer : completion A) : IO A :=
  fun tr => (answer, push tr e).

Definition liftC {A} (c : completion A) : IO A := fun tr => (c, tr).

Notation "x <~ c ;; k" := (bindIO c (fun x => k))
  (at level 61, c at next level, right associativity).

(** [for (const x of xs) { r = await body(x); if (r) return r; }] *)
Fixpoint firstIO {A B} (body : A -> IO (option B)) (xs : list A)
    : IO (option B) :=
  match xs with
  | [] => ret None
  | x :: xs' =>
      r <~ body x ;;
      match r with
      | Some b => ret (Some b)
      | None => firstIO body xs'
      end
  end.

(** [await Promise.allSettled(xs.map(f))]: every call is made. *)
Fixpoint allSettled {A B} (f : A -> IO B) (xs : list A) : IO (list B) :=
  match xs with
  | [] => ret []
  | x :: xs' => y <~ f x ;; ys <~ allSettled f xs' ;; ret (y :: ys)
  end.

(** [[...new Set(xs)]] *)
Fixpoint dedup (xs : list string) : list string :=
  match xs with
  | [] => []
  | x :: xs' =>
      x :: filter (fun y => negb (String.eqb x y)) (dedup xs')
  end.

(** [s.split(/\s+/)] *)
Fixpoint splitSpaces (cur : string) (inGap : bool) (s : string) : list string :=
  match s with
  | EmptyString => [revString "" cur]
  | String a s' =>
      if isSpace a
      then if inGap then splitSpaces cur true s'
           else revString "" cur :: splitSpaces "" true s'
      else splitSpaces (String a cur) false s'
  end.

(** [(LTD|LIMITED|INDIA|PRIVATE|PVT)] *)
Definition legalSuffix : regex :=
  Alt (lit "LTD") (Alt (lit "LIMITED") (Alt (lit "INDIA")
    (Alt (lit "PRIVATE") (lit "PVT")))).

(** [[^A-Z0-9 ]] *)
Definition notUpperAlnumSpace (a : ascii) : bool :=
  negb (isUpper a || isDigit a || Ascii.eqb a " ").

Definition stripNonAlnum (s : string) : string :=
  replaceAll (Chr notUpperAlnumSpace) (fun _ => "") s.

(** [w => w.length >= 3] over [normalizedSearch.split(/\s+/)] *)
Definition significantWords (normalizedSearch : string) : list string :=
  filter (fun w => (3 <=? String.length w)%nat)
    (splitSpaces "" false normalizedSearch).

(** [matchCount >= Math.min(searchWords.length, 2)] *)
Definition wordsMatch (searchWords : list string) (normalizedText : string)
    : bool :=
  (Nat.min (List.length searchWords) 2
   <=? List.length (filter (includes normalizedText) searchWords))%nat.

Definition truthyStr (o : option string) : option string :=
  match o with
  | Some s => if String.eqb s "" then None else Some s
  | None => None
  end.

Section Locator.

Variable LocalTZA : Z.
Variable W : World.

(** [`${dd}-${mm}-${yyyy}`] of [findNSECircular] *)
Definition formatDMY (d : JsDate) : string :=
  match d with
  | Some t =>
      padStart 2 (numberToString (getDate LocalTZA t)) ++ "-"
      ++ padStart 2 (numberToString (getMonth LocalTZA t + 1)) ++ "-"
      ++ numberToString (getFullYear LocalTZA t)
  | None => "NaN-NaN-NaN"
  end.

Definition isListingCircular (searchWords : list string) (c : NseRow) : bool :=
  if negb (String.eqb (fileDept c) "CML" && String.eqb (fileExt c) "zip")
  then false
  else
    let sub := toUpperCase (match sub c with Some s => s | None => "" end) in
    if negb (includes sub "LISTING OF EQUITY SHARES") then false
    else wordsMatch searchWords (stripNonAlnum sub).

(** [findNSECircular] *)
Definition findNSECircular (companyName listingDateISO : option string)
    : IO (option NseCircular) :=
  match truthyStr companyName, truthyStr listingDateISO with
  | Some companyName, Some listingDateISO =>
      match Date_parse W listingDateISO with
      | None => ret None
      | Some listDate =>
          let fromStr :=
            formatDMY (setDate LocalTZA listDate
                         (getDate LocalTZA listDate - 10)) in
          let toStr :=
            formatDMY (setDate LocalTZA listDate
                         (getDate LocalTZA listDate + 10)) in
          let normalizedSearch :=
            trim (stripNonAlnum
              (replaceAll
                 (seqs [chr " "; legalSuffix; opt (chr "."); chr " "])
                 (fun _ => " ")
                 (replaceAll
                    (seqs [chr " "; legalSuffix; opt (chr "."); EndOfInput])
                    (fun _ => "")
                    (toUpperCase companyName)))) in
          let searchWords := significantWords normalizedSearch in
          tryCatch
            (data <~ perform (NseApiRequest fromStr toStr)
                       (nseApi W fromStr toStr) ;;
             match data with
             | None => ret None
             | Some rows =>
                 match filter (isListingCircular searchWords) rows with
                 | [] => ret None
                 | m :: _ =>
                     ret (Some (mkNseCircular (circNumber m) (circFilelink m)
                                  (sub m) (circDisplayNo m)))
                 end
             end)
            (fun _ => ret None)
      end
  | _, _ => ret None
  end.

(** The array [datesToScan] of [findBSENotice]. *)
Definition datesToScan (listDate : Z) : list string :=
  flat_map
    (fun offset =>
       ((if 0 <? offset
         then [formatDateForNotice LocalTZA
                 (setDate LocalTZA listDate (getDate LocalTZA listDate - offset))]
         else [])
        ++ [formatDateForNotice LocalTZA
              (setDate LocalTZA listDate (getDate LocalTZA listDate + offset))])%list)
    [0; 1; 2; 3; 4; 5].

(** One batch of [scanNoticesOnDate]: ids [start .. start + 9], capped
    at [MAX_ID = 100]; all probes are issued, the first hit is kept. *)
Definition scanBatch (dateStr normalizedSearch : string) (start : nat)
    : IO (option BseNotice) :=
  let batch :=
    map (fun i => dateStr ++ "-" ++ numberToString (Z.of_nat i))
      (seq start (Nat.min 10 (101 - start))) in
  results <~ allSettled
               (fun id => perform (NoticeProbe id normalizedSearch)
                            (Return (noticeProbe W id normalizedSearch)))
               batch ;;
  ret (firstSome (fun r => r) results).

(** [scanNoticesOnDate] *)
Definition scanNoticesOnDate (dateStr normalizedSearch : string)
    : IO (option BseNotice) :=
  firstIO (scanBatch dateStr normalizedSearch)
    (map (fun b => (1 + 10 * b)%nat) (seq 0 10)).

(** [findBSENotice] *)
Definition findBSENotice (companyName listingDateISO : option string)
    : IO (option BseNotice) :=
  match truthyStr companyName, truthyStr listingDateISO with
  | Some companyName, Some listingDateISO =>
      let normalizedSearch :=
        trim (stripNonAlnum
          (replaceAll (seqs [chr " "; legalSuffix; opt (chr ".")])
             (fun _ => "") (toUpperCase companyName))) in
      let searchWords := significantWords normalizedSearch in
      smeResult <~ perform (SmeNoticeSearch searchWords)
                     (Return (smeSearch W searchWords)) ;;
      match smeResult with
      | Some r => ret (Some r)
      | None =>
          _ <~ perform BseSessionRequest (Return tt) ;;
          match Date_parse W listingDateISO with
          | None => ret None
          | Some listDate =>
              firstIO (fun dateStr => scanNoticesOnDate dateStr normalizedSearch)
                (dedup (datesToScan listDate))
          end
      end
  | _, _ => ret None
  end.

(** [downloadBSEPDF] *)
Definition downloadBSEPDF (pdfUrl : string) : IO Buffer :=
  viaAxios <~ tryCatch
                (resp <~ perform (AxiosPdfRequest pdfUrl) (axiosPdf W pdfUrl) ;;
                 if fst resp =? 200 then ret (Some (snd resp)) else ret None)
                (fun _ => ret None) ;;
  match viaAxios with
  | Some data => ret data
  | None =>
      buffer <~ perform (CurlPdfRequest pdfUrl)
                  (Return (curlFetchBinary W pdfUrl)) ;;
      match buffer with
      | None =>
          throwIO "curl PDF download returned empty or too-small response"
      | Some b =>
          if (List.length b <? 100)%nat
          then throwIO "curl PDF download returned empty or too-small response"
          else ret b
      end
  end.

(** [parseLockInData(pdfBuffer)], including the call to [pdf-parse]. *)
Definition parseLockInDataBuffer (pdfBuffer : Buffer) : IO LockInData :=
  text <~ perform (PdfParse pdfBuffer) (pdfText W pdfBuffer) ;;
  liftC (parseLockInData LocalTZA text).

End Locator.

(** ** [getUnlockPercentages] *)

(** The values that occur in the objects the orchestrator returns. *)
Inductive JsValue :=
| VNull
| VBool (b : bool)
| VNum (n : Z)
| VStr (s : string)
| VEvents (evs : list UnlockEvent).

(** An object literal: its own keys, in order, with their values. *)
Definition JsObject := list (string * JsValue).

Definition strOrNull (o : option string) : JsValue :=
  match o with Some s => VStr s | None => VNull end.

(** [{ ...lockInData, source, noticeId, fetchedAt }] *)
Definition resultObject (lockInData : LockInData) (source noticeId fetchedAt : string)
    : JsObject :=
  [("totalShares", VNum (totalShares lockInData));
   ("unlockEvents", VEvents (unlockEvents lockInData));
   ("source", VStr source);
   ("noticeId", VStr noticeId);
   ("fetchedAt", VStr fetchedAt)].

(** [{ needsClientFetch: true, bseNoticeId, source: 'BSE' }] *)
Definition clientFetchObject (bseNoticeId : string) : JsObject :=
  [("needsClientFetch", VBool true);
   ("bseNoticeId", VStr bseNoticeId);
   ("source", VStr "BSE")].

(** [{ needsBSESearch: true, listingDate, companyName, source: 'BSE' }] *)
Definition bseSearchObject (listingDateISO : string) (companyName : option string)
    : JsObject :=
  [("needsBSESearch", VBool true);
   ("listingDate", VStr listingDateISO);
   ("companyName", strOrNull companyName);
   ("source", VStr "BSE")].

Section Orchestrator.

Variable LocalTZA : Z.
Variable W : World.

(** The NSE attempt: [Some] result when the circular was found,
    downloaded and parsed into at least one unlock event. *)
Definition tryNSE (nseCircular : option NseCircular) : IO (option JsObject) :=
  match nseCircular with
  | None => ret None
  | Some c =>
      match truthyStr (zipUrl c) with
      | None => ret None
      | Some url =>
          tryCatch
            (pdfBuffer <~ perform (NseZipDownload url) (nseAnnexure W url) ;;
             match pdfBuffer with
             | None => ret None
             | Some buf =>
                 lockInData <~ parseLockInDataBuffer LocalTZA W buf ;;
                 if (0 <? List.length (unlockEvents lockInData))%nat
                 then ret (Some (resultObject lockInData "NSE" (displayNo c)
                                   (nowISO W)))
                 else ret None
             end)
            (fun _ => ret None)
      end
  end.

(** The last step: delegate the whole search to the client for a BSE
    company, otherwise [null]. *)
Definition delegateOrNull (companyName exchange : option string)
    (listingDateISO : string) : option JsObject :=
  let isBSE :=
    includes (toUpperCase (match exchange with Some e => e | None => "" end))
      "BSE" in
  if isBSE then Some (bseSearchObject listingDateISO companyName) else None.

(** [getUnlockPercentages]; [None] is [null]. *)
Definition getUnlockPercentages (companyName exchange listingDateISO : option string)
    : IO (option JsObject) :=
  tryCatch
    (match truthyStr listingDateISO with
     | None => ret None
     | Some iso =>
         nseCircular <~ findNSECircular LocalTZA W companyName (Some iso) ;;
         fromNSE <~ tryNSE nseCircular ;;
         match fromNSE with
         | Some r => ret (Some r)
         | None =>
             bseNotice <~ findBSENotice LocalTZA W companyName (Some iso) ;;
             match bseNotice with
             | None => ret (delegateOrNull companyName exchange iso)
             | Some n =>
                 match truthyStr (annexureUrl n) with
                 | Some url =>
                     tryCatch
                       (pdfBuffer <~ downloadBSEPDF W url ;;
                        lockInData <~ parseLockInDataBuffer LocalTZA W pdfBuffer ;;
                        ret (Some (resultObject lockInData "BSE" (noticeId n)
                                     (nowISO W))))
                       (fun _ => ret (Some (clientFetchObject (noticeId n))))
                 | None =>
                     if negb (String.eqb (noticeId n) "")
                     then ret (Some (clientFetchObject (noticeId n)))
                     else ret (delegateOrNull companyName exchange iso)
                 end
             end
         end
     end)
    (fun _ => ret None).

(** Running a computation from an empty trace. *)
Definition run {A} (m : IO A) : completion A * list Effect := m [].

End Orchestrator.


(** ** Inside the Locator: ZIP entries, notice pages, the session cache

    The functions below are the bodies of what [World] answers as a
    whole ([nseAnnexure], [noticeProbe], [smeSearch]); they are stated
    over the values that the libraries hand to them: the entry names of
    a ZIP archive, the text and the links of a parsed page, the
    [set-cookie] headers of a response. *)

(** [s.startsWith(p)] and [s.endsWith(p)] *)
Definition startsWith (s p : string) : bool := prefix p s.
Definition endsWith (s p : string) : bool :=
  prefix (revString "" p) (revString "" s).

(** The two [entries.find(...)] of [downloadNSEAnnexure], on the entry
    names: a [cml*.pdf] entry first, else any [.pdf] entry that does not
    start with [shp]; [None] when the function returns [null]. *)
Definition selectAnnexureEntry (entryNames : list string) : option string :=
  match find (fun n => startsWith (toLowerCase n) "cml"
                       && endsWith (toLowerCase n) ".pdf") entryNames with
  | Some n => Some n
  | None =>
      find (fun n => endsWith (toLowerCase n) ".pdf"
                     && negb (startsWith (toLowerCase n) "shp")) entryNames
  end.

(** What [cheerio] gives of a page: [$('body').text()] and, for every
    [a] element in document order, its [text()] and its [href]
    attribute. *)
Record Page := mkPage {
  bodyText : string;
  anchors : list (string * option string)
}.

(** The text and href that the [$('a').each] callbacks of
    [parseNoticeHTML] compute. *)
Definition anchorText (a : string * option string) : string :=
  toLowerCase (trim (fst a)).
Definition anchorHref (a : string * option string) : string :=
  match snd a with Some h => h | None => "" end.

(** [text.includes('annexure') && (text.includes('ii') || text.includes(' 2'))] *)
Definition mentionsAnnexureII (text : string) : bool :=
  includes text "annexure" && (includes text "ii" || includes text " 2").

(** One [$('a').each] pass: the anchors that mention Annexure II are
    skipped; on an anchor that satisfies [rule], [annexureUrl] is set
    unless it is already truthy. *)
Definition anchorPass (rule : string -> string -> bool)
    (annexureUrl : option string) (links : list (string * option string))
    : option string :=
  fold_left
    (fun url a =>
       let text := anchorText a in
       let href := anchorHref a in
       if mentionsAnnexureII text then url
       else if rule text href
            then if truthy url then url else Some href
            else url)
    links annexureUrl.

(** The conditions of the four passes. *)
Definition ruleAnnexureI (text href : string) : bool :=
  (includes text "annexure-i" || includes text "annexure - i")
  || (String.eqb text "annexure-i.pdf" || String.eqb text "annexure - i.pdf").
Definition rulePdfText (text href : string) : bool :=
  includes text "annexure" && includes text ".pdf"
  && negb (includes text "annexure_").
Definition ruleAnnexure1 (text href : string) : bool :=
  (includes text "annexure i" || includes text "annexure 1")
  && includes href ".pdf".
Definition ruleDownloadAttach (text href : string) : bool :=
  (includes text "annexure" || includes text "annex")
  && includes href "DownloadAttach".

(** A later pass runs only while [annexureUrl] is falsy. *)
Definition nextPass (rule : string -> string -> bool)
    (links : list (string * option string)) (annexureUrl : option string)
    : option string :=
  if truthy annexureUrl then annexureUrl else anchorPass rule annexureUrl links.

(** [/LISTING OF (?:THE )?EQUITY SHARES OF ([A-Z\s]+(?:LIMITED|LTD))/] *)
Definition titleRegex : regex :=
  seqs [lit "LISTING OF "; opt (lit "THE "); lit "EQUITY SHARES OF ";
        Group 1 (Seq (plus (Chr (fun a => isUpper a || isSpace a)))
                     (Alt (lit "LIMITED") (lit "LTD")))].

(** [parseNoticeHTML], after [cheerio.load(html)]. *)
Definition parseNoticeHTML (page : Page) (noticeId normalizedSearch : string)
    : option BseNotice :=
  let bodyText := toUpperCase (bodyText page) in
  let isListing :=
    includes bodyText "LISTING OF EQUITY SHARES"
    || includes bodyText "LISTING OF THE EQUITY SHARES" in
  if negb (String.eqb normalizedSearch "")
     && (negb isListing
         || negb (includes (stripNonAlnum bodyText) normalizedSearch))
  then None
  else
    let annexureUrl :=
      nextPass ruleDownloadAttach (anchors page)
        (nextPass ruleAnnexure1 (anchors page)
           (nextPass rulePdfText (anchors page)
              (anchorPass ruleAnnexureI None (anchors page)))) in
    match truthyStr annexureUrl with
    | None => None
    | Some url =>
        let title :=
          match regexExec titleRegex bodyText with
          | Some m => trim (dollar 1 m)
          | None => ""
          end in
        Some (mkBseNotice noticeId (Some url) title)
    end.

(** The requests of [checkNotice]. *)
Inductive PageRequest :=
| AxiosPage (url : string)
| CurlPage (url : string).

Definition BSE_BASE : string := "https://www.bseindia.com/markets/MarketInfo".

(** [checkNotice], given the answers of the two fetchers and of the HTML
    parser: [axios.get] returns a status with a body or throws (it also
    throws on a status of 500 and above, by [validateStatus]),
    [curlFetchHTML] returns a string or null, [cheerio.load] returns a
    page or throws.  The result comes with the requests made. *)
Definition checkNotice
    (axiosGet : string -> completion (Z * string))
    (curlFetchHTML : string -> option string)
    (load : string -> completion Page)
    (noticeId normalizedSearch : string)
    : option BseNotice * list PageRequest :=
  let url := BSE_BASE ++ "/DispNewNoticesCirculars.aspx?page=" ++ noticeId in
  let parse (html : option string) : option BseNotice :=
    match truthyStr html with
    | None => None
    | Some h =>
        match load h with
        | Return page => parseNoticeHTML page noticeId normalizedSearch
        | Throw _ => None
        end
    end in
  let viaCurl := (parse (curlFetchHTML url), [AxiosPage url; CurlPage url]) in
  match axiosGet url with
  | Return (status, data) =>
      if 500 <=? status then viaCurl
      else if status =? 403 then viaCurl
      else if 400 <=? status then (None, [AxiosPage url])
      else (parse (Some data), [AxiosPage url])
  | Throw _ => viaCurl
  end.

(** The first [n] characters, or the whole string: [s.substring(0, n)]. *)
Definition beforeIndex (o : option nat) (s : string) : string :=
  match o with Some n => substring 0 n s | None => s end.

(** [c.split(';')[0]] *)
Definition cookiePair (c : string) : string := beforeIndex (indexOfChar ";" c) c.

(** [xs.join('; ')] *)
Fixpoint joinCookies (xs : list string) : string :=
  match xs with
  | [] => ""
  | [x] => x
  | x :: xs' => x ++ "; " ++ joinCookies xs'
  end.

(** The module state [bseCookies], [bseCookieTime]. *)
Record SessionCache := mkCache {
  bseCookies : option string;
  bseCookieTime : Z
}.

Definition BSE_COOKIE_TTL : Z := 10 * 60 * 1000.

(** The request to the home page and the update of the cache; [homepage]
    is the answer of that request: the [set-cookie] headers, none, or an
    error. *)
Definition refreshSession (now : Z) (homepage : completion (option (list string)))
    : string * SessionCache * bool :=
  match homepage with
  | Return (Some (c :: cs)) =>
      let joined := joinCookies (map cookiePair (c :: cs)) in
      (joined, mkCache (Some joined) now, true)
  | _ => ("", mkCache (Some "") now, true)
  end.

(** [getBSESession] at time [now].  The result is the returned cookie
    string, the cache afterwards, and whether the request was made. *)
Definition getBSESession (cache : SessionCache) (now : Z)
    (homepage : completion (option (list string)))
    : string * SessionCache * bool :=
  match truthyStr (bseCookies cache) with
  | Some cookies =>
      if now - bseCookieTime cache <? BSE_COOKIE_TTL
      then (cookies, cache, false)
      else refreshSession now homepage
  | None => refreshSession now homepage
  end.

(** [/page=([^&]+)/] *)
Definition pageParamRegex : regex :=
  Seq (lit "page=") (Group 1 (plus (Chr (fun a => negb (Ascii.eqb a "&"))))).

(** The filter of [$('a').each] in [searchBSESMENotices]. *)
Definition isListingLink (a : string * option string) : bool :=
  includes (anchorHref a) "DispNewNoticesCirculars.aspx?page="
  && includes (toUpperCase (trim (fst a))) "LISTING".

(** The loop [for (const link of links)] of [searchBSESMENotices]:
    [check] stands for [checkNotice(noticeId, '')]. *)
Fixpoint searchLinks (check : string -> option BseNotice)
    (searchWords : list string) (links : list (string * option string))
    : option BseNotice :=
  match links with
  | [] => None
  | link :: rest =>
      let text := trim (fst link) in
      if wordsMatch searchWords (stripNonAlnum (toUpperCase text))
      then
        match regexExec pageParamRegex (anchorHref link) with
        | None => searchLinks check searchWords rest
        | Some m =>
            let noticeId := dollar 1 m in
            match check noticeId with
            | Some r => Some r
            | None => Some (mkBseNotice noticeId None text)
            end
        end
      else searchLinks check searchWords rest
  end.

(** [searchBSESMENotices], after the page was fetched and parsed. *)
Definition searchBSESMENotices (check : string -> option BseNotice)
    (searchWords : list string) (page : Page) : option BseNotice :=
  searchLinks check searchWords (filter isListingLink (anchors page)).

(** [url.replace(/'/g, "'\\''")] of the two [curl] wrappers. *)
Fixpoint escapeQuotes (url : string) : string :=
  match url with
  | EmptyString => EmptyString
  | String a s =>
      if Ascii.eqb a "'" then "'\''" ++ escapeQuotes s
      else String a (escapeQuotes s)
  end.

(** * Vocabulary of the statements *)

Definition sumZ (l : list Z) : Z := fold_right Z.add 0 l.

(** The notice-identifier form [YYYYMMDD] of a day number. *)
Definition noticeDay (day : Z) : string :=
  let ymd := civilFromDays day in
  numberToString (yearOf ymd) ++ padStart 2 (numberToString (monthOf ymd))
  ++ padStart 2 (numberToString (dayOf ymd)).

(** A locked entry with a usable date: the entries that reach the map. *)
Definition scheduled (e : LockInEntry) : bool :=
  isLocked e && truthy (unlockDate e).

(** The map key of an entry: the first ten characters of its date. *)
Definition dayKey (e : LockInEntry) : string :=
  match unlockDate e with Some d => substring 0 10 d | None => "" end.

Definition notLockedSum (entries : list LockInEntry) : Z :=
  sumZ (map shares (filter (fun e => negb (isLocked e)) entries)).

Definition daySum (k : string) (entries : list LockInEntry) : Z :=
  sumZ (map shares
          (filter (fun e => scheduled e && String.eqb (dayKey e) k) entries)).

Definition scheduledSum (entries : list LockInEntry) : Z :=
  sumZ (map shares (filter scheduled entries)).

Definition keyLe (a b : string * Z) : bool := String.leb (fst a) (fst b).


(** The per-mille value of [percentageOf], as an integer quotient. *)
Definition perMille (s total : Z) : Z := (2000 * s + total) / (2 * total).

Definition freePart (total n : Z) : list UnlockEvent :=
  if 0 <? n then [freeEvent total n] else [].







(** The two rows of the structured scenario, one per line. *)
Definition twoRows : string :=
  "8723813 1 8723813 20-Sep-2025" ++ String LF "3242 17447641 17450882 Free".

(** The same rows under the column header of an NSE annexure. *)
Definition twoRowsWithHeader : string :=
  "Lock in up to" ++ String LF twoRows.

(** The zone offset of a host at UTC, and of one at UTC+05:30. *)
Definition hostUTC : Z := 0.
Definition hostIST : Z := 19800000.


(** The result expected of the structured scenario. *)
Definition twoRowsData : LockInData :=
  buildUnlockEvents
    [mkEntry 8723813 true (Some "2025-09-20T00:00:00.000Z");
     mkEntry 3242 false None] 8727055.


(** The glued run of the reconciliation scenario as the specification
    gives it, and the run that does split into 500000, 1, 500000. *)
Definition gluedAsSpecified : string := "1500000 15-Jan-2026".
Definition gluedTripletText : string := "5000001500000 15-Jan-2026".

(** The time value of 2025-09-20T00:00:00.000Z. *)
Definition listingInstant : Z := 1758326400000.

Definition tooSmallMessage : string :=
  "curl PDF download returned empty or too-small response".

(** A world in which nothing is found: every request comes back empty. *)
Definition emptyWorld : World :=
  {| Date_parse := fun s =>
       if String.eqb s "2025-09-20" then Some 1758326400000 else None;
     nowISO := "2025-10-01T00:00:00.000Z";
     nseApi := fun _ _ => Return (Some []);
     nseAnnexure := fun _ => Return None;
     pdfText := fun _ => Throw "Invalid PDF structure";
     smeSearch := fun _ => None;
     noticeProbe := fun _ _ => None;
     axiosPdf := fun _ => Throw "Request failed";
     curlFetchBinary := fun _ => None |}.

(** A world whose primary PDF request answers 200 with a 3-byte body. *)
Definition tinyBodyWorld : World :=
  {| Date_parse := Date_parse emptyWorld;
     nowISO := nowISO emptyWorld;
     nseApi := nseApi emptyWorld;
     nseAnnexure := nseAnnexure emptyWorld;
     pdfText := pdfText emptyWorld;
     smeSearch := smeSearch emptyWorld;
     noticeProbe := noticeProbe emptyWorld;
     axiosPdf := fun _ => Return (200, [Byte.x4e; Byte.x4f; Byte.x0a]);
     curlFetchBinary := curlFetchBinary emptyWorld |}.


Definition namesBSE (exchange : option string) : bool :=
  includes (toUpperCase (match exchange with Some e => e | None => "" end)) "BSE".

(** The search words that [findBSENotice] derives from a company name. *)
Definition bseSearchWords (companyName : string) : list string :=
  significantWords
    (trim (stripNonAlnum
       (replaceAll (seqs [chr " "; legalSuffix; opt (chr ".")])
          (fun _ => "") (toUpperCase companyName)))).

(** ** Vocabulary of the further properties *)



(** What the reconciliation parser guarantees of an entry: more than 100
    shares, and locked exactly when it carries a date. *)
Definition bseShape (e : LockInEntry) : Prop :=
  100 < shares e /\ isLocked e = truthy (unlockDate e)
  /\ unlockDate e <> Some "".


(** The state of the main loop of the reconciliation parser after all
    of [nums] was visited. *)
Definition bseFinalState (tz : Z) (text : string) (nums : list NumTok)
    : BseState :=
  fold_left (bseStep tz text nums) (seq 0 (List.length nums)) (mkBse [] [] 0).

(** The invariant of the main loop on the consumed indices: they are
    pairwise distinct, they are indices of [nums], and every entry
    consumed at least one. *)
Definition UsedInv (n : nat) (st : BseState) : Prop :=
  NoDup (usedIndices st)
  /\ (forall u, In u (usedIndices st) -> (u < n)%nat)
  /\ (List.length (bseEntries st) <= List.length (usedIndices st))%nat.

(** The text that [findDateNear] searches: at most 60 characters from
    [startIndex], cut at the first line feed that is not its first
    character. *)
Definition dateWindow (text : string) (startIndex range : nat) : string :=
  let chunk := substring startIndex (Nat.min range 60) text in
  match indexOfChar LF chunk with
  | Some (S n) => substring 0 (S n) chunk
  | _ => chunk
  end.


(** The year that [new Date(year, ...)] takes [year] for. *)
Definition fullYear (year : Z) : Z :=
  if (0 <=? year) && (year <=? 99) then 1900 + year else year.

(** The identifier [`${dateStr}-${i}`] of a notice. *)
Definition noticeIdOf (dateStr : string) (i : nat) : string :=
  dateStr ++ "-" ++ numberToString (Z.of_nat i).

(** The xs up to and including the first one on which [g] answers. *)
Fixpoint throughFirst {A B} (g : A -> option B) (xs : list A) : list A :=
  match xs with
  | [] => []
  | x :: xs' =>
      x :: match g x with Some _ => [] | None => throughFirst g xs' end
  end.

(** The identifiers of the batch that starts at [start]. *)
Definition batchIds (start : nat) : list nat :=
  seq start (Nat.min 10 (101 - start)).

(** The form [DD-MM-YYYY] of a day number, as the NSE API takes it. *)
Definition nseDay (day : Z) : string :=
  let ymd := civilFromDays day in
  padStart 2 (numberToString (dayOf ymd)) ++ "-"
  ++ padStart 2 (numberToString (monthOf ymd)) ++ "-"
  ++ numberToString (yearOf ymd).

(** The four shapes of a non-null result of [getUnlockPercentages]. *)
Definition isResolution (source : string) (obj : JsObject) : Prop :=
  exists data noticeId fetchedAt,
    obj = resultObject data source noticeId fetchedAt.

Definition classified (r : option JsObject) : Prop :=
  match r with
  | None => True
  | Some obj =>
      (exists data noticeId fetchedAt,
          obj = resultObject data "NSE" noticeId fetchedAt
          /\ unlockEvents data <> [])
      \/ isResolution "BSE" obj
      \/ (exists id, obj = clientFetchObject id)
      \/ (exists iso name, iso <> "" /\ obj = bseSearchObject iso name)
  end.

(** The disjunction of the conditions of the four passes of
    [parseNoticeHTML]. *)
Definition annexureRule (text href : string) : bool :=
  ruleAnnexureI text href || rulePdfText text href
  || ruleAnnexure1 text href || ruleDownloadAttach text href.

(** An anchor that does not mention Annexure II and satisfies one of the
    four conditions. *)
Definition eligibleAnchor (a : string * option string) : Prop :=
  mentionsAnnexureII (anchorText a) = false
  /\ annexureRule (anchorText a) (anchorHref a) = true.

Definition isCmlPdf (n : string) : bool :=
  startsWith (toLowerCase n) "cml" && endsWith (toLowerCase n) ".pdf".

(** The condition under which the loop of [searchBSESMENotices] stops at
    a link: its text matches the search words and its address bears a
    page parameter, which is the notice identifier. *)
Definition linkMatch (searchWords : list string) (link : string * option string)
    : option string :=
  if wordsMatch searchWords (stripNonAlnum (toUpperCase (trim (fst link))))
  then match regexExec pageParamRegex (anchorHref link) with
       | Some m => Some (dollar 1 m)
       | None => None
       end
  else None.

(** A page with a link to Annexure II before the link to Annexure I. *)
Definition samplePage : Page :=
  mkPage "Listing of Equity Shares of Acme Widgets Limited"
    [("Annexure-II.pdf", Some "/a2.pdf"); (" Annexure-I.pdf ", Some "/a1.pdf")].

(** Reading one word of a POSIX shell command that is made of
    single-quoted parts and backslash-escaped characters; [None] when
    the word is not of that form or a quote is left open. *)
Fixpoint shellWord (inQuote : bool) (s : string) : option string :=
  match s with
  | EmptyString => if inQuote then None else Some EmptyString
  | String a s' =>
      if inQuote
      then if Ascii.eqb a "'" then shellWord false s'
           else option_map (String a) (shellWord true s')
      else if Ascii.eqb a "'" then shellWord true s'
           else if Ascii.eqb a "\"
                then match s' with
                     | String b s'' => option_map (String b) (shellWord false s'')
                     | EmptyString => None
                     end
                else None
  end.

(** The normalized name that [findBSENotice] derives from a company
    name; its significant words are [bseSearchWords]. *)
Definition bseNormalizedSearch (companyName : string) : string :=
  trim (stripNonAlnum
    (replaceAll (seqs [chr " "; legalSuffix; opt (chr ".")])
       (fun _ => "") (toUpperCase companyName))).

(** A probe of a notice page for the given normalized name. *)
Definition isProbeFor (normalizedSearch : string) (e : Effect) : Prop :=
  match e with
  | NoticeProbe _ s => s = normalizedSearch
  | _ => False
  end.

(** A world in which the NSE route succeeds: one matching circular, an
    archive with a PDF, and the text of the structured scenario. *)
Definition nseWorld : World :=
  {| Date_parse := Date_parse emptyWorld;
     nowISO := nowISO emptyWorld;
     nseApi := fun _ _ =>
       Return (Some [mkNseRow "CML" "zip"
                       (Some "Listing of Equity Shares of Acme Widgets Limited")
                       "70400"
                       (Some "https://nsearchives.nseindia.com/content/circulars/CML70400.zip")
                       "NSE/CML/70400"]);
     nseAnnexure := fun _ => Return (Some [Byte.x25; Byte.x50; Byte.x44; Byte.x46]);
     pdfText := fun _ => Return twoRowsWithHeader;
     smeSearch := smeSearch emptyWorld;
     noticeProbe := noticeProbe emptyWorld;
     axiosPdf := axiosPdf emptyWorld;
     curlFetchBinary := curlFetchBinary emptyWorld |}.

(** What the passes of [parseNoticeHTML] keep in [annexureUrl]: nothing,
    or the address of an eligible anchor. *)
Definition linkOf (links : list (string * option string)) (url : option string)
    : Prop :=
  url = None
  \/ exists a, In a links /\ eligibleAnchor a /\ url = Some (anchorHref a).



(** * Properties *)

(** ** Sums *)

Lemma sumZ_app l1 l2 : sumZ (l1 ++ l2) = sumZ l1 + sumZ l2.
Proof. induction l1 as [|x l1 IH]; simpl; lia. Qed.

Lemma sumZ_perm l1 l2 : Permutation l1 l2 -> sumZ l1 = sumZ l2.
Proof. induction 1; simpl; lia. Qed.

Lemma sumZ_nonneg l : Forall (fun x => 0 <= x) l -> 0 <= sumZ l.
Proof. induction 1; simpl; lia. Qed.

(** ** The map *)

Lemma Map_get_set_same m k v : Map_get (Map_set m k v) k = Some v.
Proof.
  induction m as [|[k' v'] m IH]; simpl.
  - now rewrite String.eqb_refl.
  - destruct (String.eqb k' k) eqn:E; simpl; rewrite E; auto.
Qed.

Lemma Map_get_set_other m k k' v :
  k' <> k -> Map_get (Map_set m k v) k' = Map_get m k'.
Proof.
  intros Hne. induction m as [|[k0 v0] m IH]; simpl.
  - destruct (String.eqb k k') eqn:E; auto.
    apply String.eqb_eq in E. congruence.
  - destruct (String.eqb k0 k) eqn:E; simpl.
    + apply String.eqb_eq in E. subst k0.
      destruct (String.eqb k k') eqn:E'; auto.
      apply String.eqb_eq in E'. congruence.
    + now rewrite IH.
Qed.

Lemma Map_get_In m k : Map_get m k <> None <-> In k (map fst m).
Proof.
  induction m as [|[k' v'] m IH]; simpl.
  - tauto.
  - destruct (String.eqb k' k) eqn:E.
    + apply String.eqb_eq in E. split; auto. discriminate.
    + apply String.eqb_neq in E. rewrite IH. tauto.
Qed.

Lemma Map_set_keys m k v :
  forall k', In k' (map fst (Map_set m k v)) <-> k' = k \/ In k' (map fst m).
Proof.
  intros k'. rewrite <- !Map_get_In.
  destruct (string_dec k' k) as [->|Hne].
  - rewrite Map_get_set_same. split; auto. discriminate.
  - rewrite Map_get_set_other by auto. tauto.
Qed.

Lemma Map_set_NoDup m k v :
  NoDup (map fst m) -> NoDup (map fst (Map_set m k v)).
Proof.
  induction m as [|[k' v'] m IH]; simpl; intros Hnd.
  - constructor; [simpl; tauto | constructor].
  - inversion Hnd as [|? ? Hnot Hnd']; subst.
    destruct (String.eqb k' k) eqn:E; simpl.
    + constructor; auto.
    + constructor; auto.
      rewrite Map_set_keys. apply String.eqb_neq in E. intros [->|H]; auto.
Qed.

Lemma Map_set_sum m k v :
  sumZ (map snd (Map_set m k v))
  = sumZ (map snd m) - orZero (Map_get m k) + v.
Proof.
  induction m as [|[k' v'] m IH]; simpl.
  - lia.
  - destruct (String.eqb k' k); simpl; lia.
Qed.

Lemma Map_get_In_pair m k v :
  NoDup (map fst m) -> (In (k, v) m <-> Map_get m k = Some v).
Proof.
  induction m as [|[k' v'] m IH]; simpl; intros Hnd.
  - split; [tauto | discriminate].
  - inversion Hnd as [|? ? Hnot Hnd']; subst.
    destruct (String.eqb k' k) eqn:E.
    + apply String.eqb_eq in E. subst k'. split.
      * intros [H|H]; [congruence|].
        exfalso. apply Hnot. change k with (fst (k, v)). now apply in_map.
      * intros H. left. congruence.
    + apply String.eqb_neq in E. rewrite <- IH by auto. split.
      * intros [H|H]; [congruence | auto].
      * auto.
Qed.

(** ** The loop of [buildUnlockEvents] *)

Lemma buildStep_free m n e :
  isLocked e = false -> buildStep (m, n) e = (m, n + shares e).
Proof. intros H. unfold buildStep. now rewrite H. Qed.

Lemma buildStep_scheduled m n e :
  scheduled e = true ->
  buildStep (m, n) e
  = (Map_set m (dayKey e) (orZero (Map_get m (dayKey e)) + shares e), n).
Proof.
  unfold scheduled, buildStep, dayKey. intros H.
  apply andb_true_iff in H. destruct H as [Hl Ht].
  rewrite Hl, Ht. simpl.
  destruct (unlockDate e); [reflexivity | discriminate].
Qed.

Lemma buildStep_dropped m n e :
  isLocked e = true -> truthy (unlockDate e) = false ->
  buildStep (m, n) e = (m, n).
Proof. intros Hl Ht. unfold buildStep. now rewrite Hl, Ht. Qed.

Lemma buildStep_cases e :
  (isLocked e = false /\ scheduled e = false)
  \/ scheduled e = true
  \/ (isLocked e = true /\ truthy (unlockDate e) = false /\ scheduled e = false).
Proof.
  unfold scheduled.
  destruct (isLocked e), (truthy (unlockDate e)); simpl; auto.
Qed.

Lemma fold_buildStep entries : forall m0 n0 m n,
  fold_left buildStep entries (m0, n0) = (m, n) ->
  n = n0 + notLockedSum entries
  /\ (forall k, orZero (Map_get m k) = orZero (Map_get m0 k) + daySum k entries)
  /\ (forall k, In k (map fst m) <->
                In k (map fst m0)
                \/ exists e, In e entries /\ scheduled e = true /\ dayKey e = k)
  /\ (NoDup (map fst m0) -> NoDup (map fst m))
  /\ sumZ (map snd m) = sumZ (map snd m0) + scheduledSum entries.
Proof.
  induction entries as [|e l IH]; intros m0 n0 m n Hf.
  - simpl in Hf. inversion Hf; subst.
    unfold notLockedSum, daySum, scheduledSum. simpl.
    repeat split; intros; try lia; auto.
    destruct H as [H|[e [[] _]]]; auto.
  - cbn [fold_left] in Hf.
    destruct (buildStep_cases e) as [[Hl Hs]|[Hs|[Hl [Ht Hs]]]].
    + rewrite buildStep_free in Hf by auto.
      apply IH in Hf. destruct Hf as (Hn & Hget & Hkeys & Hnd & Hsum).
      unfold notLockedSum, daySum, scheduledSum in *. simpl.
      rewrite Hl, Hs. simpl.
      repeat split; auto; try lia.
      * intros H. apply Hkeys in H. destruct H as [H|(x & Hx & Hsx & Hk)]; auto.
        right. exists x. auto.
      * intros [H|(x & [Hx|Hx] & Hsx & Hk)].
        -- apply Hkeys. auto.
        -- subst x. congruence.
        -- apply Hkeys. right. exists x. auto.
    + rewrite buildStep_scheduled in Hf by auto.
      apply IH in Hf. destruct Hf as (Hn & Hget & Hkeys & Hnd & Hsum).
      assert (Hl : isLocked e = true).
      { unfold scheduled in Hs. now apply andb_true_iff in Hs. }
      unfold notLockedSum, daySum, scheduledSum in *. simpl.
      rewrite Hl, Hs. simpl.
      repeat split; auto.
      * intros k. rewrite Hget.
        destruct (String.eqb (dayKey e) k) eqn:E; simpl.
        -- apply String.eqb_eq in E. subst k.
           rewrite Map_get_set_same. simpl. lia.
        -- apply String.eqb_neq in E.
           rewrite Map_get_set_other by congruence. lia.
      * intros H. apply Hkeys in H. destruct H as [H|(x & Hx & Hsx & Hk)].
        -- apply Map_set_keys in H. destruct H as [->|H]; auto.
           right. exists e. auto.
        -- right. exists x. auto.
      * intros [H|(x & [Hx|Hx] & Hsx & Hk)]; apply Hkeys.
        -- left. apply Map_set_keys. auto.
        -- subst x. left. apply Map_set_keys. auto.
        -- right. exists x. auto.
      * intros H. apply Hnd. now apply Map_set_NoDup.
      * rewrite Hsum, Map_set_sum. lia.
    + rewrite buildStep_dropped in Hf by auto.
      apply IH in Hf. destruct Hf as (Hn & Hget & Hkeys & Hnd & Hsum).
      unfold notLockedSum, daySum, scheduledSum in *. simpl.
      rewrite Hl, Hs. simpl.
      repeat split; auto.
      * intros H. apply Hkeys in H. destruct H as [H|(x & Hx & Hsx & Hk)]; auto.
        right. exists x. auto.
      * intros [H|(x & [Hx|Hx] & Hsx & Hk)].
        -- apply Hkeys. auto.
        -- subst x. congruence.
        -- apply Hkeys. right. exists x. auto.
Qed.

(** ** The sort *)

Lemma insertSorted_perm {A} (le : A -> A -> bool) x l :
  Permutation (insertSorted le x l) (x :: l).
Proof.
  induction l as [|y l IH]; simpl; auto.
  destruct (le x y); auto.
  rewrite IH. apply perm_swap.
Qed.

Lemma sortBy_perm {A} (le : A -> A -> bool) l : Permutation (sortBy le l) l.
Proof.
  induction l as [|x l IH]; simpl; auto.
  rewrite insertSorted_perm. now constructor.
Qed.

Lemma sortByKey_eq l : sortByKey l = sortBy keyLe l.
Proof. induction l as [|x l IH]; simpl; auto. rewrite IH.
  generalize (sortBy keyLe l). intros s. induction s as [|y s IHs]; simpl; auto.
  unfold keyLe at 1. destruct (String.leb (fst x) (fst y)); auto. now rewrite IHs.
Qed.






Lemma sortByKey_perm l : Permutation (sortByKey l) l.
Proof. rewrite sortByKey_eq. apply sortBy_perm. Qed.

(** ** Percentages *)

Lemma Math_round_quotient s total :
  0 < total ->
  Math_round (inject_Z s / inject_Z total * 1000) = perMille s total.
Proof.
  intros Ht. destruct total as [|p|p]; try lia.
  unfold Math_round, perMille.
  assert (E : (inject_Z s / inject_Z (Z.pos p) * 1000 + (1 # 2)
               == (2000 * s + Z.pos p) # (2 * p))%Q).
  { unfold Qeq, Qdiv, Qmult, Qinv, Qplus, inject_Z. cbn -[Z.mul Z.add Pos.mul].
    rewrite ?Pos2Z.inj_mul. lia. }
  rewrite (Qfloor_comp _ _ E). reflexivity.
Qed.

Lemma percentageOf_perMille s total :
  0 < total -> (percentageOf s total == inject_Z (perMille s total) / 10)%Q.
Proof.
  intros Ht. unfold percentageOf.
  replace (0 <? total) with true by (symmetry; now apply Z.ltb_lt).
  now rewrite Math_round_quotient.
Qed.

Lemma percentageOf_zero s total : total <= 0 -> percentageOf s total = 0%Q.
Proof.
  intros Ht. unfold percentageOf.
  now replace (0 <? total) with false by (symmetry; now apply Z.ltb_ge).
Qed.


(** ** The shape of the output *)

Lemma buildUnlockEvents_unfold entries total :
  exists m,
    fold_left buildStep entries ([], 0) = (m, notLockedSum entries)
    /\ unlockEvents (buildUnlockEvents entries total)
       = (freePart total (notLockedSum entries)
          ++ map (datedEvent total) (sortByKey m))%list
    /\ totalShares (buildUnlockEvents entries total) = total.
Proof.
  unfold buildUnlockEvents.
  destruct (fold_left buildStep entries ([], 0)) as [m n] eqn:Hf.
  pose proof (fold_buildStep entries _ _ _ _ Hf) as (Hn & _).
  simpl in Hn. subst n. exists m. split; [reflexivity|].
  unfold freePart. destruct (0 <? notLockedSum entries); simpl; auto.
Qed.

Lemma event_percentage entries total e :
  In e (unlockEvents (buildUnlockEvents entries total)) ->
  percentage e = percentageOf (eshares e) total.
Proof.
  destruct (buildUnlockEvents_unfold entries total) as (m & _ & -> & _).
  intros H. apply in_app_or in H. destruct H as [H|H].
  - unfold freePart in H. destruct (0 <? notLockedSum entries); simpl in H.
    + destruct H as [<-|[]]. reflexivity.
    + tauto.
  - apply in_map_iff in H. destruct H as (kv & <- & _). reflexivity.
Qed.

Lemma sum_datedEvents total l :
  sumZ (map eshares (map (datedEvent total) l)) = sumZ (map snd l).
Proof. induction l as [|x l IH]; simpl; auto. now rewrite IH. Qed.

Lemma notLockedSum_nonneg entries :
  (forall e, In e entries -> 0 <= shares e) -> 0 <= notLockedSum entries.
Proof.
  intros H. unfold notLockedSum. apply sumZ_nonneg.
  apply Forall_forall. intros x Hx. apply in_map_iff in Hx.
  destruct Hx as (e & <- & He). apply filter_In in He. apply H, He.
Qed.

Lemma daySum_nonneg k entries :
  (forall e, In e entries -> 0 <= shares e) -> 0 <= daySum k entries.
Proof.
  intros H. unfold daySum. apply sumZ_nonneg.
  apply Forall_forall. intros x Hx. apply in_map_iff in Hx.
  destruct Hx as (e & <- & He). apply filter_In in He. apply H, He.
Qed.

(** The sum of the shares of all events. *)
Lemma event_shares_sum entries total :
  (forall e, In e entries -> 0 <= shares e) ->
  sumZ (map eshares (unlockEvents (buildUnlockEvents entries total)))
  = notLockedSum entries + scheduledSum entries.
Proof.
  intros Hpos.
  destruct (buildUnlockEvents_unfold entries total) as (m & Hf & -> & _).
  pose proof (fold_buildStep entries _ _ _ _ Hf) as (_ & _ & _ & _ & Hsum).
  rewrite map_app, sumZ_app, sum_datedEvents.
  rewrite (sumZ_perm _ _ (Permutation_map snd (sortByKey_perm m))).
  rewrite Hsum. simpl.
  pose proof (notLockedSum_nonneg entries Hpos).
  unfold freePart. destruct (0 <? notLockedSum entries) eqn:E; simpl.
  - lia.
  - apply Z.ltb_ge in E. lia.
Qed.

Lemma event_shares_nonneg entries total e :
  (forall x, In x entries -> 0 <= shares x) ->
  In e (unlockEvents (buildUnlockEvents entries total)) -> 0 <= eshares e.
Proof.
  intros Hpos.
  destruct (buildUnlockEvents_unfold entries total) as (m & Hf & -> & _).
  pose proof (fold_buildStep entries _ _ _ _ Hf) as (_ & Hget & _ & Hnd & _).
  intros H. apply in_app_or in H. destruct H as [H|H].
  - unfold freePart in H. destruct (0 <? notLockedSum entries) eqn:E; simpl in H.
    + destruct H as [<-|[]]. simpl. apply Z.ltb_lt in E. lia.
    + tauto.
  - apply in_map_iff in H. destruct H as ([k v] & <- & Hin). simpl.
    apply (Permutation_in _ (sortByKey_perm m)) in Hin.
    apply Map_get_In_pair in Hin; [|apply Hnd; constructor].
    specialize (Hget k). rewrite Hin in Hget. simpl in Hget.
    pose proof (daySum_nonneg k entries Hpos). lia.
Qed.

(** ** The aggregator *)










(** ** Rounding *)




(** ** Invariants of the parsers *)


Lemma append_cons_nonempty s1 c s2 : (s1 ++ String c s2)%string <> "".
Proof. destruct s1; discriminate. Qed.

Lemma isoString_nonempty t : isoString t <> "".
Proof. unfold isoString. apply append_cons_nonempty. Qed.


Lemma forEachC_inv {A S} (P : S -> Prop) (body : S -> A -> completion S) xs :
  (forall st x st', P st -> body st x = Return st' -> P st') ->
  forall st st', P st -> forEachC body xs st = Return st' -> P st'.
Proof.
  intros Hbody. induction xs as [|x xs IH]; simpl; intros st st' Hst H.
  - inversion H; subst; auto.
  - destruct (body st x) as [st1|msg] eqn:E; simpl in H; [|discriminate].
    eapply IH; [|exact H]. eapply Hbody; eauto.
Qed.






(** *** The reconciliation parser *)

Lemma firstSome_some {A B} (f : A -> option B) xs b :
  firstSome f xs = Some b -> exists x, In x xs /\ f x = Some b.
Proof.
  induction xs as [|x xs IH]; simpl; [discriminate|].
  destruct (f x) as [b'|] eqn:E.
  - intros H. inversion H; subst. exists x. auto.
  - intros H. apply IH in H. destruct H as (y & Hy & Hf). exists y. auto.
Qed.

Lemma findMathTripletInString_gt str A B C :
  findMathTripletInString str = Some (A, B, C) -> A = C - B + 1 /\ 100 < A.
Proof.
  unfold findMathTripletInString. intros H.
  apply firstSome_some in H. destruct H as (i & _ & H).
  apply firstSome_some in H. destruct H as (j & _ & H).
  destruct (_ || _); [discriminate|].
  destruct (parseInt _) as [a|]; [|discriminate].
  destruct (parseInt _) as [b|]; [|discriminate].
  destruct (parseInt _) as [c|]; [|discriminate].
  destruct ((a =? c - b + 1) && (100 <? a)) eqn:E; [|discriminate].
  inversion H; subst. apply andb_true_iff in E. destruct E as [E1 E2].
  apply Z.eqb_eq in E1. apply Z.ltb_lt in E2. auto.
Qed.

Lemma gluedTriplet_pos i ti A tok used :
  gluedTriplet i ti = Some (A, tok, used) -> 100 < A.
Proof.
  unfold gluedTriplet. destruct (8 <=? _)%nat; [|discriminate].
  destruct (findMathTripletInString (rawStr ti)) as [[[a b] c]|] eqn:E;
    [|discriminate].
  intros H. inversion H; subst. now apply findMathTripletInString_gt in E.
Qed.

Lemma gluedAB_pos nums used i ti A tok consumed :
  gluedAB nums used i ti = Some (A, tok, consumed) -> 100 < A.
Proof.
  unfold gluedAB. destruct (2 <=? _)%nat; [|discriminate].
  intros H. apply firstSome_some in H. destruct H as (j & _ & H).
  destruct (has used j); [discriminate|].
  destruct (nth_error nums j) as [tj|]; [|discriminate].
  apply firstSome_some in H. destruct H as (split & _ & H).
  destruct (_ || _); [discriminate|].
  destruct (parseInt _) as [a|]; [|discriminate].
  destruct (parseInt _) as [b|]; [|discriminate].
  destruct ((a =? val tj - b + 1) && (100 <? a)) eqn:E; [|discriminate].
  inversion H; subst. apply andb_true_iff in E. destruct E as [_ E2].
  now apply Z.ltb_lt in E2.
Qed.

Lemma lookAhead_shares nums used i A A' tok consumed :
  lookAhead nums used i A = Some (A', tok, consumed) -> A' = A.
Proof.
  unfold lookAhead. intros H.
  apply firstSome_some in H. destruct H as (j & _ & H).
  destruct (has used j); [discriminate|].
  destruct (nth_error nums j) as [tj|]; [|discriminate].
  destruct (if (5 <=? _)%nat then _ else _) as [p|].
  - inversion H; auto.
  - destruct ((A =? val tj) || (A =? val tj - 1)).
    + inversion H; auto.
    + apply firstSome_some in H. destruct H as (k & _ & H).
      destruct (has used k); [discriminate|].
      destruct (nth_error nums k) as [tk|]; [|discriminate].
      destruct (A =? val tk - val tj + 1); [|discriminate].
      inversion H; auto.
Qed.

Lemma findDateNear_ok tz text i r : findDateNear tz text i r <> Some "".
Proof.
  unfold findDateNear.
  destruct (rev _) as [|[t n] l]; [discriminate|].
  intros E. inversion E as [E']. now apply isoString_nonempty in E'.
Qed.








(** ** The extracted schedule against its total *)




(** ** Scenarios *)






(** C4, as amended: the digit run "5000001500000" followed by the date
    "15-Jan-2026" is split into A = 500000, B = 1, C = 500000 with
    A = C - B + 1, and on a host at UTC the parser emits the single entry
    {shares: 500000, locked: true, unlockDate: 2026-01-15}. *)
Theorem glued_triplet_scenario :
  findMathTripletInString "5000001500000" = Some (500000, 1, 500000)
  /\ 500000 = 500000 - 1 + 1
  /\ lockInEntriesOf hostUTC gluedTripletText
     = Return ([mkEntry 500000 true (Some "2026-01-15T00:00:00.000Z")], 500000)
  /\ scheduled (mkEntry 500000 true (Some "2026-01-15T00:00:00.000Z")) = true
  /\ dayKey (mkEntry 500000 true (Some "2026-01-15T00:00:00.000Z"))
     = "2026-01-15".
Proof. repeat split; vm_compute; reflexivity. Qed.

(** C4 as stated fails: the run "1500000" has seven digits, below the
    eight that the glued-triplet rule requires, and no split of it
    satisfies the identity; the entry comes from the proximity fallback
    with 1500000 shares. *)
Lemma glued_triplet_counterexample :
  findMathTripletInString "1500000" = None
  /\ lockInEntriesOf hostUTC gluedAsSpecified
     = Return ([mkEntry 1500000 true (Some "2026-01-15T00:00:00.000Z")], 1500000)
  /\ lockInEntriesOf hostUTC gluedAsSpecified
     <> Return ([mkEntry 500000 true (Some "2026-01-15T00:00:00.000Z")], 500000).
Proof.
  split; [|split].
  - vm_compute. reflexivity.
  - vm_compute. reflexivity.
  - vm_compute. discriminate.
Qed.

(** ** The calendar *)

Lemma civilFromDays_month z : 1 <= monthOf (civilFromDays z) <= 12.
Proof.
  unfold civilFromDays, monthOf. cbv zeta. cbn [fst snd].
  set (z' := z + 719468).
  set (era := z' / 146097).
  set (doe := z' - era * 146097).
  assert (Hdoe : 0 <= doe < 146097) by (subst doe era; Z.div_mod_to_equations; lia).
  set (yoe := (doe - doe / 1460 + doe / 36524 - doe / 146096) / 365).
  set (doy := doe - (365 * yoe + yoe / 4 - yoe / 100)).
  assert (Hdoy : 0 <= doy < 366).
  { subst doy yoe. Z.div_mod_to_equations. lia. }
  set (mp := (5 * doy + 2) / 153).
  assert (Hmp : 0 <= mp < 12) by (subst mp; Z.div_mod_to_equations; lia).
  destruct (mp <? 10) eqn:E.
  - apply Z.ltb_lt in E. lia.
  - apply Z.ltb_ge in E. lia.
Qed.

(** The day number of the date that [civilFromDays] computes. *)
Lemma daysFromCivil_civilFromDays z :
  daysFromCivil (yearOf (civilFromDays z)) (monthOf (civilFromDays z))
    (dayOf (civilFromDays z)) = z.
Proof.
  unfold civilFromDays, daysFromCivil, yearOf, monthOf, dayOf.
  cbv zeta. cbn [fst snd].
  set (z' := z + 719468).
  set (era := z' / 146097).
  set (doe := z' - era * 146097).
  assert (Hdoe : 0 <= doe < 146097) by (subst doe era; Z.div_mod_to_equations; lia).
  set (yoe := (doe - doe / 1460 + doe / 36524 - doe / 146096) / 365).
  assert (Hyoe : 0 <= yoe < 400) by (subst yoe; Z.div_mod_to_equations; lia).
  set (doy := doe - (365 * yoe + yoe / 4 - yoe / 100)).
  assert (Hdoy : 0 <= doy < 366).
  { subst doy yoe. Z.div_mod_to_equations. lia. }
  set (mp := (5 * doy + 2) / 153).
  assert (Hmp : 0 <= mp < 12) by (subst mp; Z.div_mod_to_equations; lia).
  destruct (mp <? 10) eqn:E.
  - apply Z.ltb_lt in E.
    replace (mp + 3 <=? 2) with false by (symmetry; apply Z.leb_gt; lia).
    replace ((mp + 3 + 9) mod 12) with mp by (Z.div_mod_to_equations; lia).
    replace ((yoe + era * 400) / 400) with era by (Z.div_mod_to_equations; lia).
    subst doy z' doe. Z.div_mod_to_equations. lia.
  - apply Z.ltb_ge in E.
    replace (mp - 9 <=? 2) with true by (symmetry; apply Z.leb_le; lia).
    replace ((mp - 9 + 9) mod 12) with mp by (Z.div_mod_to_equations; lia).
    replace (yoe + era * 400 + 1 - 1) with (yoe + era * 400) by lia.
    replace ((yoe + era * 400) / 400) with era by (Z.div_mod_to_equations; lia).
    subst doy z' doe. Z.div_mod_to_equations. lia.
Qed.

Lemma daysFromCivil_day y m d :
  daysFromCivil y m d = daysFromCivil y m 1 + d - 1.
Proof. unfold daysFromCivil. cbv zeta. lia. Qed.

(** [MakeDay] on the fields of a day number, with the day of month
    shifted by [k], is the day number shifted by [k]. *)
Lemma MakeDay_shift z k :
  MakeDay (yearOf (civilFromDays z)) (monthOf (civilFromDays z) - 1)
    (dayOf (civilFromDays z) + k) = z + k.
Proof.
  unfold MakeDay.
  pose proof (civilFromDays_month z) as Hm.
  replace ((monthOf (civilFromDays z) - 1) / 12) with 0
    by (Z.div_mod_to_equations; lia).
  replace ((monthOf (civilFromDays z) - 1) mod 12 + 1)
    with (monthOf (civilFromDays z)) by (Z.div_mod_to_equations; lia).
  rewrite Z.add_0_r.
  pose proof (daysFromCivil_civilFromDays z) as Hr.
  rewrite daysFromCivil_day in Hr. lia.
Qed.

(** [d.setDate(d.getDate() + k)] moves a date by [k] days, as long as the
    result is a representable time value. *)
Lemma setDate_shift tz t k :
  Z.abs (t + k * msPerDay) <= maxTimeValue ->
  setDate tz t (getDate tz t + k) = Some (t + k * msPerDay).
Proof.
  intros Hr. unfold setDate, getFullYear, getMonth, getDate, localFields.
  rewrite MakeDay_shift.
  unfold UTC, LocalTime, Day, TimeWithinDay, TimeClip.
  replace ((((t + tz) / msPerDay + k) * msPerDay + (t + tz) mod msPerDay - tz))
    with (t + k * msPerDay)
    by (unfold msPerDay; Z.div_mod_to_equations; lia).
  now replace (Z.abs (t + k * msPerDay) <=? maxTimeValue) with true
    by (symmetry; now apply Z.leb_le).
Qed.

Lemma Day_shift tz t k :
  Day (LocalTime tz (t + k * msPerDay)) = Day (LocalTime tz t) + k.
Proof.
  unfold Day, LocalTime, msPerDay. Z.div_mod_to_equations. lia.
Qed.

Lemma formatDateForNotice_shift tz t k :
  formatDateForNotice tz (Some (t + k * msPerDay))
  = noticeDay (Day (LocalTime tz t) + k).
Proof.
  unfold formatDateForNotice, noticeDay, getFullYear, getMonth, getDate,
    localFields.
  rewrite Day_shift.
  now replace (monthOf (civilFromDays (Day (LocalTime tz t) + k)) - 1 + 1)
    with (monthOf (civilFromDays (Day (LocalTime tz t) + k))) by lia.
Qed.

(** C7, as amended: the candidate dates are the local listing day shifted
    by 0, -1, +1, -2, +2, ..., -5, +5 days, in this order: by increasing
    offset, backward before forward at each offset. *)
Theorem datesToScan_order (tz t : Z)
    (Hrange : Z.abs t + 5 * msPerDay <= maxTimeValue) :
  datesToScan tz t
  = map (fun k => noticeDay (Day (LocalTime tz t) + k))
      [0; -1; 1; -2; 2; -3; 3; -4; 4; -5; 5].
Proof.
  unfold datesToScan. cbn [flat_map map app Z.ltb Z.compare].
  replace (getDate tz t - 1) with (getDate tz t + -1) by lia.
  replace (getDate tz t - 2) with (getDate tz t + -2) by lia.
  replace (getDate tz t - 3) with (getDate tz t + -3) by lia.
  replace (getDate tz t - 4) with (getDate tz t + -4) by lia.
  replace (getDate tz t - 5) with (getDate tz t + -5) by lia.
  rewrite !setDate_shift by (unfold msPerDay in *; lia).
  rewrite !formatDateForNotice_shift. reflexivity.
Qed.

Lemma datesToScan_order_witness :
  Z.abs listingInstant + 5 * msPerDay <= maxTimeValue
  /\ datesToScan hostUTC listingInstant
     = map (fun k => noticeDay (Day (LocalTime hostUTC listingInstant) + k))
         [0; -1; 1; -2; 2; -3; 3; -4; 4; -5; 5].
Proof.
  split.
  - vm_compute. discriminate.
  - apply (datesToScan_order hostUTC listingInstant). vm_compute. discriminate.
Defined.

(** C7 as stated fails: the second candidate is the day before the
    listing date, not the day after. *)
Lemma datesToScan_backward_first :
  nth_error (datesToScan hostUTC listingInstant) 0 = Some "20250920"
  /\ nth_error (datesToScan hostUTC listingInstant) 1 = Some "20250919"
  /\ nth_error (datesToScan hostUTC listingInstant) 1 <> Some "20250921"
  /\ nth_error (datesToScan hostUTC listingInstant) 2 = Some "20250921".
Proof.
  repeat split; try (vm_compute; reflexivity).
  vm_compute. discriminate.
Qed.

(** ** The retriever *)

(** C8, as amended: a body that the primary request returns with status
    200 is returned whatever its length, without a fallback request;
    otherwise one fallback request is made, and its payload is rejected
    with an exception when it is absent or shorter than 100 bytes and
    returned when it has 100 bytes or more. *)
Theorem downloadBSEPDF_paths (W : World) (pdfUrl : string) :
  (forall body, axiosPdf W pdfUrl = Return (200, body) ->
     run (downloadBSEPDF W pdfUrl) = (Return body, [AxiosPdfRequest pdfUrl]))
  /\ ((forall body, axiosPdf W pdfUrl <> Return (200, body)) ->
      run (downloadBSEPDF W pdfUrl)
      = (match curlFetchBinary W pdfUrl with
         | None => Throw tooSmallMessage
         | Some b =>
             if (List.length b <? 100)%nat then Throw tooSmallMessage
             else Return b
         end,
         [AxiosPdfRequest pdfUrl; CurlPdfRequest pdfUrl])).
Proof.
  split.
  - intros body H. unfold run, downloadBSEPDF, bindIO, tryCatch, perform, ret.
    rewrite H. reflexivity.
  - intros H. unfold run, downloadBSEPDF, bindIO, tryCatch, perform, ret, throwIO.
    destruct (axiosPdf W pdfUrl) as [[status body]|msg] eqn:E; cbn.
    + destruct (status =? 200) eqn:Es.
      * apply Z.eqb_eq in Es. subst. now elim (H body).
      * destruct (curlFetchBinary W pdfUrl) as [b|]; cbn; auto.
        destruct (_ <=? _)%nat; reflexivity.
    + destruct (curlFetchBinary W pdfUrl) as [b|]; cbn; auto.
      destruct (_ <=? _)%nat; reflexivity.
Qed.

(** C8 as stated fails on the primary path: a 3-byte body with status 200
    is returned as the document. *)
Lemma downloadBSEPDF_small_body_accepted :
  run (downloadBSEPDF tinyBodyWorld "https://www.bseindia.com/a.pdf")
  = (Return [Byte.x4e; Byte.x4f; Byte.x0a],
     [AxiosPdfRequest "https://www.bseindia.com/a.pdf"])
  /\ (List.length [Byte.x4e; Byte.x4f; Byte.x0a] < 100)%nat.
Proof. split; [reflexivity | simpl; lia]. Qed.

(** ** The orchestrator *)









(** C6, as amended: a missing listing date returns null at once, with no
    request made; a missing company name makes no request either, but the
    result is the full-delegation object when the exchange hint contains
    "BSE" and null otherwise; a listing date that is present but does not
    parse skips the NSE request and the identifier scan, while the BSE SME
    search and the session request are still made, and when that search
    finds nothing the result is again the delegation object or null. *)
Theorem malformed_input (tz : Z) (W : World)
    (companyName exchange listingDateISO : option string) :
  (truthyStr listingDateISO = None ->
   run (getUnlockPercentages tz W companyName exchange listingDateISO)
   = (Return None, []))
  /\ (forall iso,
        truthyStr listingDateISO = Some iso ->
        truthyStr companyName = None ->
        run (getUnlockPercentages tz W companyName exchange listingDateISO)
        = (Return (if namesBSE exchange
                   then Some (bseSearchObject iso companyName) else None),
           []))
  /\ (forall iso name,
        truthyStr listingDateISO = Some iso ->
        truthyStr companyName = Some name ->
        Date_parse W iso = None ->
        smeSearch W (bseSearchWords name) = None ->
        run (getUnlockPercentages tz W companyName exchange listingDateISO)
        = (Return (if namesBSE exchange
                   then Some (bseSearchObject iso companyName) else None),
           [SmeNoticeSearch (bseSearchWords name); BseSessionRequest])).
Proof.
  split; [|split].
  - intros H. unfold run, getUnlockPercentages. rewrite H. reflexivity.
  - intros iso Hd Hc. unfold run, getUnlockPercentages. rewrite Hd.
    unfold tryCatch, bindIO, findNSECircular, findBSENotice. rewrite Hc.
    reflexivity.
  - intros iso name Hd Hc Hp Hs. unfold run, getUnlockPercentages. rewrite Hd.
    unfold tryCatch at 1. unfold bindIO at 1.
    assert (Hi : truthyStr (Some iso) = Some iso).
    { unfold truthyStr in *. destruct listingDateISO as [s|]; [|discriminate].
      destruct (String.eqb s "") eqn:E; [discriminate|].
      inversion Hd; subst. now rewrite E. }
    unfold findNSECircular. rewrite Hc, Hi, Hp. cbn [ret tryNSE bindIO].
    unfold findBSENotice. rewrite Hc, Hi.
    fold (bseSearchWords name).
    unfold bindIO, perform. rewrite Hs, Hp. reflexivity.
Qed.

(** C6 as stated fails: without a company name a BSE request still ends
    in the delegation object; and with a listing date that does not parse
    the BSE SME search is still made. *)
Lemma malformed_input_not_short_circuited :
  run (getUnlockPercentages hostUTC emptyWorld None (Some "BSE")
         (Some "2025-09-20"))
  = (Return (Some [("needsBSESearch", VBool true);
                   ("listingDate", VStr "2025-09-20");
                   ("companyName", VNull);
                   ("source", VStr "BSE")]), [])
  /\ Date_parse emptyWorld "20th of September" = None
  /\ snd (run (getUnlockPercentages hostUTC emptyWorld (Some "Acme Widgets Ltd")
                 (Some "NSE") (Some "20th of September")))
     = [SmeNoticeSearch ["ACME"; "WIDGETS"]; BseSessionRequest].
Proof.
  split; [|split]; vm_compute; reflexivity.
Qed.

(** * Further properties of the code *)

Lemma firstSome_none {A B} (f : A -> option B) xs :
  firstSome f xs = None -> forall x, In x xs -> f x = None.
Proof.
  induction xs as [|y xs IH]; simpl; [tauto|].
  destruct (f y) eqn:E; [discriminate|].
  intros H x [<-|Hx]; auto.
Qed.






(** ** Shapes of the parsed entries *)

Lemma Forall_push {A} (P : A -> Prop) l x :
  Forall P l -> P x -> Forall P (push l x).
Proof. intros Hl Hx. unfold push. apply Forall_app. split; auto. Qed.

Lemma findDateNear_shape tz text i r A :
  100 < A ->
  let d := findDateNear tz text i r in
  bseShape (mkEntry A (truthy d) d).
Proof.
  intros HA d. repeat split; simpl; auto. apply findDateNear_ok.
Qed.

Lemma emit_shape tz text st A tok consumed :
  Forall bseShape (bseEntries st) -> 100 < A ->
  Forall bseShape (bseEntries (emit tz text st (A, tok, consumed))).
Proof.
  intros Hall HA. unfold emit. cbn [bseEntries].
  apply Forall_push; auto. now apply findDateNear_shape.
Qed.

Lemma bseStep_shape tz text nums st i :
  Forall bseShape (bseEntries st) ->
  Forall bseShape (bseEntries (bseStep tz text nums st i)).
Proof.
  intros Hinv. unfold bseStep.
  destruct (has (usedIndices st) i); auto.
  destruct (nth_error nums i) as [ti|]; auto.
  destruct (gluedTriplet i ti) as [[[A tok] c]|] eqn:E1.
  { apply emit_shape; auto. now apply gluedTriplet_pos in E1. }
  destruct (gluedAB nums (usedIndices st) i ti) as [[[A tok] c]|] eqn:E2.
  { apply emit_shape; auto. now apply gluedAB_pos in E2. }
  destruct (val ti <? 1000) eqn:E3; auto.
  apply Z.ltb_ge in E3.
  destruct (lookAhead nums (usedIndices st) i (val ti)) as [[[A tok] c]|] eqn:E4;
    auto.
  apply emit_shape; auto. apply lookAhead_shares in E4. lia.
Qed.

Lemma bseFinalState_shape tz text nums :
  Forall bseShape (bseEntries (bseFinalState tz text nums)).
Proof.
  unfold bseFinalState.
  assert (H : forall idxs st, Forall bseShape (bseEntries st) ->
            Forall bseShape (bseEntries (fold_left (bseStep tz text nums) idxs st))).
  { induction idxs as [|i idxs IH]; simpl; auto.
    intros st Hst. apply IH. now apply bseStep_shape. }
  apply H. constructor.
Qed.

Lemma closestStep_inv dmIndex acc num :
  (fst acc = 0 \/ 1000 <= fst acc) ->
  (fst (closestStep dmIndex acc num) = 0
   \/ 1000 <= fst (closestStep dmIndex acc num)).
Proof.
  destruct acc as [c m]. unfold closestStep. intros H.
  destruct ((val num <? 1000) || _) eqn:E; auto.
  apply orb_false_iff in E. destruct E as [E _]. apply Z.ltb_ge in E.
  destruct (_ && _); auto.
Qed.

Lemma closest_fold_inv dmIndex nums : forall acc,
  (fst acc = 0 \/ 1000 <= fst acc) ->
  (fst (fold_left (closestStep dmIndex) nums acc) = 0
   \/ 1000 <= fst (fold_left (closestStep dmIndex) nums acc)).
Proof.
  induction nums as [|n nums IH]; simpl; auto.
  intros acc H. apply IH. now apply closestStep_inv.
Qed.

Lemma truthy_isoString t : truthy (Some (isoString t)) = true.
Proof.
  unfold truthy. destruct (String.eqb (isoString t) "") eqn:E; auto.
  apply String.eqb_eq in E. now apply isoString_nonempty in E.
Qed.

Lemma proximityStep_shape tz nums st dm st' :
  Forall bseShape (fst st) -> proximityStep tz nums st dm = Return st' ->
  Forall bseShape (fst st').
Proof.
  destruct st as [es t]. unfold proximityStep. intros Hinv.
  destruct (parseBSEDate tz (m_text dm)) as [d|].
  - pose proof (closest_fold_inv (m_index dm) nums (0, 1000) (or_introl eq_refl))
      as Hc.
    set (c := fst (fold_left (closestStep (m_index dm)) nums (0, 1000))) in *.
    destruct (0 <? c) eqn:Hpos.
    + apply Z.ltb_lt in Hpos.
      destruct d as [tv|]; simpl; intros H; inversion H; subst.
      cbn [fst]. apply Forall_push; auto.
      unfold bseShape. cbn [shares isLocked unlockDate].
      rewrite truthy_isoString. repeat split; try lia.
      intros E. inversion E as [E']. now apply isoString_nonempty in E'.
    + intros H. inversion H; subst; auto.
  - intros H. inversion H; subst; auto.
Qed.

Lemma bseEntriesOf_shape tz norm st :
  bseEntriesOf tz norm = Return st -> Forall bseShape (fst st).
Proof.
  unfold bseEntriesOf.
  set (text := bseText norm).
  set (nums := scanNums (maskDates text)).
  pose proof (bseFinalState_shape tz text nums) as Hs.
  unfold bseFinalState in Hs.
  set (s := fold_left _ _ _) in *.
  destruct (List.length (bseEntries s) =? 0)%nat.
  - intros H.
    eapply (forEachC_inv (fun st => Forall bseShape (fst st)));
      [|idtac|exact H].
    + intros s0 x s1. apply proximityStep_shape.
    + exact Hs.
  - intros H. inversion H; subst. exact Hs.
Qed.

(** X4: Every entry that the reconciliation parser
    ([parseUniversalBSEFormat]) hands to [buildUnlockEvents] has more than
    100 shares, and is marked locked exactly when it carries an unlock
    date. *)
Theorem reconciliation_entries_shape (tz : Z) (norm : string)
    (entries : list LockInEntry) (total : Z)
    (H : bseEntriesOf tz norm = Return (entries, total)) :
  forall e, In e entries ->
    100 < shares e /\ (isLocked e = true <-> unlockDate e <> None).
Proof.
  intros e He.
  pose proof (bseEntriesOf_shape _ _ _ H) as Hall. simpl in Hall.
  rewrite Forall_forall in Hall. destruct (Hall e He) as (Hs & Hl & Hd).
  split; auto. rewrite Hl. unfold truthy.
  destruct (unlockDate e) as [d|].
  - destruct (String.eqb d "") eqn:E.
    + apply String.eqb_eq in E. subst. congruence.
    + simpl. split; [discriminate|reflexivity].
  - split; [discriminate|congruence].
Qed.

Lemma reconciliation_entries_shape_witness :
  bseEntriesOf hostUTC gluedTripletText
  = Return ([mkEntry 500000 true (Some "2026-01-15T00:00:00.000Z")], 500000)
  /\ forall e, In e [mkEntry 500000 true (Some "2026-01-15T00:00:00.000Z")] ->
       100 < shares e /\ (isLocked e = true <-> unlockDate e <> None).
Proof.
  split; [vm_compute; reflexivity|].
  apply (reconciliation_entries_shape hostUTC gluedTripletText _ 500000).
  vm_compute. reflexivity.
Defined.




(** *** All parsers *)

Section StructuredShape.

Variable P : LockInEntry -> Prop.
Hypothesis P_free : forall sh, 0 < sh -> P (mkEntry sh false None).
Hypothesis P_locked : forall sh d, 0 < sh -> P (mkEntry sh true d).




End StructuredShape.




(** ** Consumption of the digit runs *)

Lemma has_false used j : has used j = false -> ~ In j used.
Proof.
  unfold has. intros H Hin.
  assert (E : existsb (Nat.eqb j) used = true).
  { apply existsb_exists. exists j. split; auto. apply Nat.eqb_refl. }
  congruence.
Qed.

Lemma nth_error_lt {A} (l : list A) i x : nth_error l i = Some x -> (i < List.length l)%nat.
Proof. intros H. apply nth_error_Some. congruence. Qed.

Lemma gluedTriplet_consumed i ti A tok c :
  gluedTriplet i ti = Some (A, tok, c) -> c = [i].
Proof.
  unfold gluedTriplet. destruct (8 <=? _)%nat; [|discriminate].
  destruct (findMathTripletInString (rawStr ti)) as [[[a b] c0]|]; [|discriminate].
  intros H. now inversion H.
Qed.

Lemma gluedAB_consumed nums used i ti A tok c :
  gluedAB nums used i ti = Some (A, tok, c) ->
  exists j, c = [i; j] /\ (i < j)%nat /\ (j < List.length nums)%nat
            /\ ~ In j used.
Proof.
  unfold gluedAB. destruct (2 <=? _)%nat; [|discriminate].
  intros H. apply firstSome_some in H. destruct H as (j & Hj & H).
  apply in_seq in Hj.
  destruct (has used j) eqn:Hu; [discriminate|].
  destruct (nth_error nums j) as [tj|] eqn:Hn; [|discriminate].
  apply firstSome_some in H. destruct H as (split & _ & H).
  destruct (_ || _); [discriminate|].
  destruct (parseInt _) as [a|]; [|discriminate].
  destruct (parseInt _) as [b|]; [|discriminate].
  destruct (_ && _); [|discriminate].
  inversion H; subst. exists j. repeat split; auto.
  - lia.
  - eapply nth_error_lt; eauto.
  - now apply has_false.
Qed.

Lemma lookAhead_consumed nums used i A A' tok c :
  lookAhead nums used i A = Some (A', tok, c) ->
  exists j, (i < j)%nat /\ (j < List.length nums)%nat /\ ~ In j used
    /\ (c = [i; j]
        \/ exists k, (j < k)%nat /\ (k < List.length nums)%nat /\ ~ In k used
                     /\ c = [i; j; k]).
Proof.
  unfold lookAhead. intros H.
  apply firstSome_some in H. destruct H as (j & Hj & H).
  apply in_seq in Hj.
  destruct (has used j) eqn:Hu; [discriminate|].
  destruct (nth_error nums j) as [tj|] eqn:Hn; [|discriminate].
  exists j. split; [lia|]. split; [eapply nth_error_lt; eauto|].
  split; [now apply has_false|].
  destruct (if (5 <=? _)%nat then _ else _) as [p|].
  - inversion H; auto.
  - destruct ((A =? val tj) || (A =? val tj - 1)).
    + inversion H; auto.
    + apply firstSome_some in H. destruct H as (k & Hk & H).
      apply in_seq in Hk.
      destruct (has used k) eqn:Hu'; [discriminate|].
      destruct (nth_error nums k) as [tk|] eqn:Hn'; [|discriminate].
      destruct (A =? val tk - val tj + 1); [|discriminate].
      inversion H; subst. right. exists k. repeat split; auto.
      * lia.
      * eapply nth_error_lt; eauto.
      * now apply has_false.
Qed.

Lemma emit_used tz text st A tok c n :
  UsedInv n st ->
  NoDup c -> c <> [] ->
  (forall u, In u c -> (u < n)%nat /\ ~ In u (usedIndices st)) ->
  UsedInv n (emit tz text st (A, tok, c)).
Proof.
  intros (Hnd & Hb & Hlen) Hc Hne Hu. unfold UsedInv, emit.
  cbn [usedIndices bseEntries]. repeat split.
  - apply NoDup_app; auto. intros x Hx Hx'. apply Hu in Hx. tauto.
  - intros u Hin. apply in_app_or in Hin. destruct Hin as [Hin|Hin]; auto.
    now apply Hu.
  - unfold push. rewrite !length_app. simpl.
    destruct c; [congruence|]. simpl. lia.
Qed.

Lemma bseStep_used tz text nums st i :
  UsedInv (List.length nums) st ->
  UsedInv (List.length nums) (bseStep tz text nums st i).
Proof.
  intros Hinv. unfold bseStep.
  destruct (has (usedIndices st) i) eqn:Hi; auto.
  apply has_false in Hi.
  destruct (nth_error nums i) as [ti|] eqn:Hn; auto.
  apply nth_error_lt in Hn.
  destruct (gluedTriplet i ti) as [[[A tok] c]|] eqn:E1.
  { apply gluedTriplet_consumed in E1. subst c.
    apply emit_used; auto.
    - repeat constructor. simpl. tauto.
    - discriminate.
    - intros u [<-|[]]. auto. }
  destruct (gluedAB nums (usedIndices st) i ti) as [[[A tok] c]|] eqn:E2.
  { apply gluedAB_consumed in E2. destruct E2 as (j & -> & Hij & Hj & Huj).
    apply emit_used; auto.
    - repeat constructor; simpl; try tauto. intros [H|[]]. lia.
    - discriminate.
    - intros u [<-|[<-|[]]]; auto. }
  destruct (val ti <? 1000); auto.
  destruct (lookAhead nums (usedIndices st) i (val ti)) as [[[A tok] c]|] eqn:E4;
    auto.
  apply lookAhead_consumed in E4.
  destruct E4 as (j & Hij & Hj & Huj & [->|(k & Hjk & Hk & Huk & ->)]).
  - apply emit_used; auto.
    + repeat constructor; simpl; try tauto. intros [H|[]]. lia.
    + discriminate.
    + intros u [<-|[<-|[]]]; auto.
  - apply emit_used; auto.
    + repeat constructor; simpl; try tauto.
      * intros [H|[H|[]]]; lia.
      * intros [H|[]]. lia.
    + discriminate.
    + intros u [<-|[<-|[<-|[]]]]; auto.
Qed.

(** X6: In the main loop of [parseUniversalBSEFormat] no index of
    [nums] is added to [usedIndices] twice, every consumed index is an
    index of [nums], and every pushed entry consumed at least one: there
    are never more entries than digit runs. *)
Theorem digit_runs_consumed_once (tz : Z) (text : string) (nums : list NumTok) :
  let st := bseFinalState tz text nums in
  NoDup (usedIndices st)
  /\ (forall u, In u (usedIndices st) -> (u < List.length nums)%nat)
  /\ (List.length (bseEntries st) <= List.length (usedIndices st))%nat
  /\ (List.length (bseEntries st) <= List.length nums)%nat.
Proof.
  intros st.
  assert (H : UsedInv (List.length nums) st).
  { subst st. unfold bseFinalState.
    assert (G : forall idxs s, UsedInv (List.length nums) s ->
              UsedInv (List.length nums) (fold_left (bseStep tz text nums) idxs s)).
    { induction idxs as [|i idxs IH]; simpl; auto.
      intros s Hs. apply IH. now apply bseStep_used. }
    apply G. repeat split; simpl; auto. constructor. tauto. }
  destruct H as (Hnd & Hb & Hlen). repeat split; auto.
  assert (Hle : (List.length (usedIndices st) <= List.length (seq 0 (List.length nums)))%nat).
  { apply NoDup_incl_length; auto. intros u Hu. apply in_seq. apply Hb in Hu. lia. }
  rewrite length_seq in Hle. lia.
Qed.

(** ** [findDateNear] *)

Lemma insertSorted_sorted {A} (le : A -> A -> bool) x l :
  (forall a b, le a b = false -> le b a = true) ->
  (forall a b c, le a b = true -> le b c = true -> le a c = true) ->
  StronglySorted (fun a b => le a b = true) l ->
  StronglySorted (fun a b => le a b = true) (insertSorted le x l).
Proof.
  intros Htot Htr Hs. induction Hs as [|y l Hs IH Hall]; simpl.
  - repeat constructor.
  - destruct (le x y) eqn:E.
    + constructor; [constructor; auto|].
      constructor; auto.
      eapply Forall_impl; [|exact Hall]. intros z Hz. eapply Htr; eauto.
    + constructor; auto.
      eapply Permutation_Forall; [symmetry; apply insertSorted_perm|].
      constructor; auto.
Qed.

Lemma sortBy_sorted {A} (le : A -> A -> bool) l :
  (forall a b, le a b = false -> le b a = true) ->
  (forall a b c, le a b = true -> le b c = true -> le a c = true) ->
  StronglySorted (fun a b => le a b = true) (sortBy le l).
Proof.
  intros Htot Htr. induction l as [|x l IH]; simpl.
  - constructor.
  - now apply insertSorted_sorted.
Qed.

Lemma sorted_last {A} (R : A -> A -> Prop) l x :
  StronglySorted R (l ++ [x]) -> forall y, In y l -> R y x.
Proof.
  induction l as [|z l IH]; simpl; [tauto|].
  intros Hs y [<-|Hy].
  - inversion Hs as [|? ? _ Hall]; subst.
    rewrite Forall_forall in Hall. apply Hall. apply in_or_app. right. now left.
  - inversion Hs; subst. auto.
Qed.

Lemma nearDates_year tz chunk t i :
  In (t, i) (nearDates tz chunk) -> 2000 < getFullYear tz t.
Proof.
  unfold nearDates. intros H. apply in_flat_map in H.
  destruct H as (m & _ & H).
  destruct (parseBSEDate tz (m_text m)) as [[t0|]|]; try contradiction.
  destruct (2000 <? getFullYear tz t0) eqn:E; [|contradiction].
  destruct H as [H|[]]. inversion H; subst. now apply Z.ltb_lt.
Qed.

(** X8: [findDateNear] returns the ISO string of the latest of the
    dates of its window (at most 60 characters, cut at the first line feed
    after the first character) that parse with a local year after 2000; it
    returns null exactly when the window has no such date. *)
Theorem findDateNear_latest (tz : Z) (text : string) (startIndex range : nat) :
  match findDateNear tz text startIndex range with
  | Some s =>
      exists t i,
        s = isoString t
        /\ In (t, i) (nearDates tz (dateWindow text startIndex range))
        /\ 2000 < getFullYear tz t
        /\ forall t' i',
             In (t', i') (nearDates tz (dateWindow text startIndex range)) ->
             t' <= t
  | None => nearDates tz (dateWindow text startIndex range) = []
  end.
Proof.
  unfold findDateNear. fold (dateWindow text startIndex range).
  set (nd := nearDates tz (dateWindow text startIndex range)).
  set (rows := sortBy timeLe (sortBy indexLe nd)).
  assert (Hperm : Permutation rows nd).
  { subst rows. rewrite sortBy_perm. apply sortBy_perm. }
  assert (Hsorted : StronglySorted (fun a b => timeLe a b = true) rows).
  { subst rows. apply sortBy_sorted; unfold timeLe.
    - intros a b H. apply Z.leb_gt in H. apply Z.leb_le. lia.
    - intros a b c H1 H2. apply Z.leb_le in H1, H2. apply Z.leb_le. lia. }
  destruct (rev rows) as [|[t i] rest] eqn:Er.
  - assert (rows = []).
    { rewrite <- (rev_involutive rows), Er. reflexivity. }
    rewrite H in Hperm. now apply Permutation_nil in Hperm.
  - assert (Hrows : rows = (rev rest ++ [(t, i)])%list).
    { rewrite <- (rev_involutive rows), Er. reflexivity. }
    assert (Hin : In (t, i) nd).
    { eapply Permutation_in; [exact Hperm|]. rewrite Hrows.
      apply in_or_app. right. now left. }
    exists t, i. repeat split; auto.
    + eapply nearDates_year. exact Hin.
    + intros t' i' Hin'.
      apply (Permutation_in _ (Permutation_sym Hperm)) in Hin'.
      rewrite Hrows in Hin', Hsorted.
      apply in_app_or in Hin'. destruct Hin' as [Hin'|[Heq|[]]].
      * pose proof (sorted_last _ _ _ Hsorted _ Hin') as Hle.
        unfold timeLe in Hle. simpl in Hle. now apply Z.leb_le.
      * inversion Heq. lia.
Qed.

(** ** The aggregator and the order of the entries *)







(** ** Bounds on the percentages *)

Lemma perMille_range s total :
  0 < total -> 0 <= s <= total -> 0 <= perMille s total <= 1000.
Proof.
  intros Ht Hs. unfold perMille. split.
  - apply Z.div_pos; lia.
  - assert ((2000 * s + total) / (2 * total) < 1001)
      by (apply Z.div_lt_upper_bound; lia).
    lia.
Qed.

Lemma percentageOf_range s total :
  0 <= s <= total -> (0 <= percentageOf s total <= 100)%Q.
Proof.
  intros Hs. destruct (Z.ltb_spec 0 total) as [Ht|Ht].
  - pose proof (perMille_range s total Ht Hs) as Hr.
    rewrite percentageOf_perMille by assumption.
    unfold Qle, Qdiv, Qmult, Qinv, inject_Z. cbn -[Z.mul Z.add Pos.mul]. lia.
  - rewrite percentageOf_zero by lia. split; unfold Qle; simpl; lia.
Qed.

Lemma sumZ_member_le (l : list Z) x :
  Forall (fun y => 0 <= y) l -> In x l -> x <= sumZ l.
Proof.
  induction 1 as [|y l Hy Hall IH]; simpl; [tauto|].
  pose proof (sumZ_nonneg l Hall).
  intros [<-|Hx]; [lia|]. specialize (IH Hx). lia.
Qed.

Lemma kept_sum_le entries :
  (forall e, In e entries -> 0 <= shares e) ->
  notLockedSum entries + scheduledSum entries <= sumZ (map shares entries).
Proof.
  unfold notLockedSum, scheduledSum, scheduled, sumZ.
  induction entries as [|e l IH]; intros Hpos; [simpl; lia|].
  assert (He : 0 <= shares e) by (apply Hpos; now left).
  assert (IH' := IH (fun x Hx => Hpos x (or_intror Hx))).
  cbn [filter].
  destruct (isLocked e), (truthy (unlockDate e));
    cbn [negb andb map fold_right]; lia.
Qed.

(** X11: When every entry has a positive share count and the shares
    of the entries do not exceed the total, the percentage of every unlock
    event lies between 0 and 100. *)
Theorem percentage_within_bounds (entries : list LockInEntry) (total : Z)
    (e : UnlockEvent)
    (Hpos : forall x, In x entries -> 0 < shares x)
    (Htotal : sumZ (map shares entries) <= total)
    (He : In e (unlockEvents (buildUnlockEvents entries total))) :
  (0 <= percentage e <= 100)%Q.
Proof.
  assert (Hnn : forall x, In x entries -> 0 <= shares x).
  { intros x Hx. apply Hpos in Hx. lia. }
  rewrite (event_percentage _ _ _ He).
  apply percentageOf_range. split.
  - eapply event_shares_nonneg; eauto.
  - transitivity (sumZ (map eshares (unlockEvents (buildUnlockEvents entries total)))).
    + apply sumZ_member_le; [|now apply in_map].
      apply Forall_forall. intros y Hy. apply in_map_iff in Hy.
      destruct Hy as (ev & <- & Hev). eapply event_shares_nonneg; eauto.
    + rewrite event_shares_sum by assumption.
      pose proof (kept_sum_le entries Hnn). lia.
Qed.

Lemma percentage_within_bounds_witness :
  let e := datedEvent 8727055 ("2025-09-20", 8723813) in
  (0 <= percentage e <= 100)%Q.
Proof.
  apply (percentage_within_bounds
           [mkEntry 8723813 true (Some "2025-09-20T00:00:00.000Z");
            mkEntry 3242 false None] 8727055).
  - intros x [<-|[<-|[]]]; simpl; lia.
  - vm_compute. discriminate.
  - vm_compute. right. left. reflexivity.
Defined.

(** ** Local midnight and the UTC day *)







(** X13: The date that [parseBSEDate] builds with
    [new Date(year, month, day)] is local midnight: on a host at or behind
    UTC its UTC day is the day written in the document, on a host ahead of
    UTC it is the day before. *)
Theorem newDate_utc_day (tz year month day t : Z)
    (H : newDate tz year month day = Some t) :
  (- msPerDay < tz <= 0 -> Day t = MakeDay (fullYear year) month day)
  /\ (0 < tz <= msPerDay -> Day t = MakeDay (fullYear year) month day - 1).
Proof.
  unfold newDate, TimeClip, UTC in H. fold (fullYear year) in H.
  set (D := MakeDay (fullYear year) month day) in *.
  destruct (Z.abs (D * msPerDay - tz) <=? maxTimeValue); [|discriminate].
  inversion H; subst t. unfold Day, msPerDay.
  split; intros Htz; unfold msPerDay in Htz; Z.div_mod_to_equations; lia.
Qed.

Lemma newDate_utc_day_witness :
  newDate hostIST 2025 8 20 = Some 1758306600000
  /\ (- msPerDay < hostIST <= 0 ->
      Day 1758306600000 = MakeDay (fullYear 2025) 8 20)
  /\ (0 < hostIST <= msPerDay ->
      Day 1758306600000 = MakeDay (fullYear 2025) 8 20 - 1).
Proof.
  split; [vm_compute; reflexivity|].
  apply (newDate_utc_day hostIST 2025 8 20 1758306600000).
  vm_compute. reflexivity.
Defined.

(** ** The identifier scan *)

Lemma allSettled_run {A B} (E : A -> Effect) (g : A -> B) xs : forall tr,
  allSettled (fun x => perform (E x) (Return (g x))) xs tr
  = (Return (map g xs), (tr ++ map E xs)%list).
Proof.
  induction xs as [|x xs IH]; intros tr; simpl.
  - unfold ret. now rewrite app_nil_r.
  - unfold bindIO, perform at 1. rewrite IH. unfold ret, push.
    now rewrite <- app_assoc.
Qed.

Lemma firstSome_map_id {A B} (g : A -> option B) xs :
  firstSome (fun r => r) (map g xs) = firstSome g xs.
Proof. induction xs as [|x xs IH]; simpl; auto. now rewrite IH. Qed.

Lemma firstIO_run {A B} (body : A -> IO (option B)) (g : A -> option B)
    (h : A -> list Effect) :
  (forall x tr, body x tr = (Return (g x), (tr ++ h x)%list)) ->
  forall xs tr,
    firstIO body xs tr
    = (Return (firstSome g xs), (tr ++ flat_map h (throughFirst g xs))%list).
Proof.
  intros Hb. induction xs as [|x xs IH]; intros tr; simpl.
  - unfold ret. now rewrite app_nil_r.
  - unfold bindIO. rewrite Hb. destruct (g x) as [b|].
    + unfold ret. simpl. now rewrite app_nil_r.
    + rewrite IH. now rewrite <- app_assoc.
Qed.

Lemma firstSome_flat_map {A B C} (g : B -> option C) (f : A -> list B) xs :
  firstSome g (flat_map f xs) = firstSome (fun x => firstSome g (f x)) xs.
Proof.
  induction xs as [|x xs IH]; simpl; auto.
  rewrite <- IH. generalize (flat_map f xs). intros rest.
  induction (f x) as [|y ys IHy]; simpl; auto.
  destruct (g y); auto.
Qed.

Lemma firstSome_map {A B C} (g : B -> option C) (f : A -> B) xs :
  firstSome g (map f xs) = firstSome (fun x => g (f x)) xs.
Proof. induction xs as [|x xs IH]; simpl; auto. now rewrite IH. Qed.

Lemma scanBatch_run W dateStr name start tr :
  scanBatch W dateStr name start tr
  = (Return (firstSome (fun i => noticeProbe W (noticeIdOf dateStr i) name)
               (batchIds start)),
     (tr ++ map (fun i => NoticeProbe (noticeIdOf dateStr i) name)
              (batchIds start))%list).
Proof.
  unfold scanBatch, bindIO.
  rewrite (allSettled_run (fun id => NoticeProbe id name)
             (fun id => noticeProbe W id name)).
  unfold ret. rewrite firstSome_map_id, firstSome_map, map_map. reflexivity.
Qed.

Lemma scanNoticesOnDate_run W dateStr name tr :
  scanNoticesOnDate W dateStr name tr
  = (Return (firstSome (fun i => noticeProbe W (noticeIdOf dateStr i) name)
               (seq 1 100)),
     (tr ++ map (fun i => NoticeProbe (noticeIdOf dateStr i) name)
              (flat_map batchIds
                 (throughFirst
                    (fun start =>
                       firstSome
                         (fun i => noticeProbe W (noticeIdOf dateStr i) name)
                         (batchIds start))
                    (map (fun b => (1 + 10 * b)%nat) (seq 0 10)))))%list).
Proof.
  unfold scanNoticesOnDate.
  rewrite (firstIO_run _
             (fun start => firstSome
                (fun i => noticeProbe W (noticeIdOf dateStr i) name)
                (batchIds start))
             (fun start => map (fun i => NoticeProbe (noticeIdOf dateStr i) name)
                (batchIds start))).
  2:{ intros start tr'. apply scanBatch_run. }
  f_equal.
  - f_equal.
    change (seq 1 100)
      with (flat_map batchIds (map (fun b => (1 + 10 * b)%nat) (seq 0 10))).
    now rewrite firstSome_flat_map.
  - f_equal. generalize (throughFirst
      (fun start => firstSome
         (fun i => noticeProbe W (noticeIdOf dateStr i) name) (batchIds start))
      (map (fun b => (1 + 10 * b)%nat) (seq 0 10))).
    intros l. induction l as [|x l IH]; simpl; auto.
    now rewrite map_app, IH.
Qed.

Lemma firstSome_seq_first {B} (f : nat -> option B) n start b :
  firstSome f (seq start n) = Some b ->
  exists i, (start <= i < start + n)%nat /\ f i = Some b
            /\ forall i', (start <= i' < i)%nat -> f i' = None.
Proof.
  revert start. induction n as [|n IH]; intros start; simpl; [discriminate|].
  destruct (f start) as [b'|] eqn:E.
  - intros H. inversion H; subst. exists start. repeat split; auto; lia.
  - intros H. apply IH in H. destruct H as (i & Hi & Hf & Hmin).
    exists i. repeat split; auto; try lia.
    intros i' Hi'. destruct (Nat.eq_dec i' start) as [->|Hne]; auto.
    apply Hmin. lia.
Qed.

(** X19: [scanNoticesOnDate] never throws.  A notice it returns is
    the answer of the probe with the lowest identifier, among
    [dateStr-1 .. dateStr-100], that finds one; it returns null exactly
    when none of the hundred probes finds a notice.  Batching does not
    change which notice is found. *)
Theorem scanNoticesOnDate_lowest_match (W : World) (dateStr name : string)
    (tr : list Effect) :
  match fst (scanNoticesOnDate W dateStr name tr) with
  | Return (Some n) =>
      exists i, (1 <= i <= 100)%nat
        /\ noticeProbe W (noticeIdOf dateStr i) name = Some n
        /\ forall j, (1 <= j < i)%nat ->
             noticeProbe W (noticeIdOf dateStr j) name = None
  | Return None =>
      forall i, (1 <= i <= 100)%nat ->
        noticeProbe W (noticeIdOf dateStr i) name = None
  | Throw _ => False
  end.
Proof.
  rewrite scanNoticesOnDate_run. cbn [fst].
  destruct (firstSome (fun i => noticeProbe W (noticeIdOf dateStr i) name)
              (seq 1 100)) as [n|] eqn:E.
  - apply firstSome_seq_first in E. destruct E as (i & Hi & Hp & Hmin).
    exists i. split; [lia|]. split; [exact Hp|].
    intros j Hj. apply Hmin. lia.
  - intros i Hi. apply (firstSome_none _ _ E i). apply in_seq. lia.
Qed.

Lemma throughFirst_none {A B} (g : A -> option B) xs :
  (forall x, In x xs -> g x = None) -> throughFirst g xs = xs.
Proof.
  induction xs as [|x xs IH]; simpl; auto.
  intros H. rewrite (H x) by now left. f_equal. apply IH. auto.
Qed.

Lemma firstSome_all_none_in {A B} (g : A -> option B) xs :
  (forall x, In x xs -> g x = None) -> firstSome g xs = None.
Proof.
  induction xs as [|x xs IH]; simpl; auto.
  intros H. rewrite (H x) by now left. apply IH. auto.
Qed.

(** X20: The probes of [scanNoticesOnDate]: without a match all of
    the identifiers 1 to 100 are probed, in order; with a match among the
    first ten, exactly the ten identifiers of the first batch are probed. *)
Theorem scanNoticesOnDate_probes (W : World) (dateStr name : string)
    (tr : list Effect) :
  (* without a match, identifiers 1 to 100 are probed in order *)
  ((forall i, (1 <= i <= 100)%nat ->
      noticeProbe W (noticeIdOf dateStr i) name = None) ->
   snd (scanNoticesOnDate W dateStr name tr)
   = (tr ++ map (fun i => NoticeProbe (noticeIdOf dateStr i) name)
             (seq 1 100))%list)
  (* with a match among the first ten, exactly these ten are probed *)
  /\ ((exists i, (1 <= i <= 10)%nat
                 /\ noticeProbe W (noticeIdOf dateStr i) name <> None) ->
      snd (scanNoticesOnDate W dateStr name tr)
      = (tr ++ map (fun i => NoticeProbe (noticeIdOf dateStr i) name)
                (seq 1 10))%list).
Proof.
  rewrite scanNoticesOnDate_run. cbn [snd]. split.
  - intros Hnone. rewrite throughFirst_none.
    + reflexivity.
    + intros start Hs. apply firstSome_all_none_in.
      intros i Hi. apply Hnone.
      apply in_map_iff in Hs. destruct Hs as (b & <- & Hb).
      apply in_seq in Hb. unfold batchIds in Hi. apply in_seq in Hi. lia.
  - intros (i & Hi & Hp).
    change (map (fun b => (1 + 10 * b)%nat) (seq 0 10))
      with [1; 11; 21; 31; 41; 51; 61; 71; 81; 91]%nat.
    cbn [throughFirst].
    destruct (firstSome (fun i => noticeProbe W (noticeIdOf dateStr i) name)
                (batchIds 1)) eqn:E.
    + reflexivity.
    + exfalso. apply Hp.
      apply (firstSome_none _ _ E i).
      unfold batchIds. apply in_seq. simpl. lia.
Qed.

(** ** The NSE query window *)

Lemma formatDMY_shift tz t k :
  formatDMY tz (Some (t + k * msPerDay)) = nseDay (Day (LocalTime tz t) + k).
Proof.
  unfold formatDMY, nseDay, getFullYear, getMonth, getDate, localFields.
  rewrite Day_shift.
  now replace (monthOf (civilFromDays (Day (LocalTime tz t) + k)) - 1 + 1)
    with (monthOf (civilFromDays (Day (LocalTime tz t) + k))) by lia.
Qed.

(** X14: For a name and a listing date that are given and parse (ten
    days inside the range of time values), [findNSECircular] makes exactly
    one request to the NSE API, for the window from ten local days before
    to ten local days after the listing date in the form [DD-MM-YYYY], and
    it never throws. *)
Theorem findNSECircular_window (tz : Z) (W : World)
    (companyName listingDateISO : option string) (name iso : string) (t : Z)
    (tr : list Effect)
    (Hname : truthyStr companyName = Some name)
    (Hiso : truthyStr listingDateISO = Some iso)
    (Hdate : Date_parse W iso = Some t)
    (Hrange : Z.abs t + 10 * msPerDay <= maxTimeValue) :
  snd (findNSECircular tz W companyName listingDateISO tr)
  = push tr (NseApiRequest (nseDay (Day (LocalTime tz t) - 10))
                           (nseDay (Day (LocalTime tz t) + 10)))
  /\ exists r, fst (findNSECircular tz W companyName listingDateISO tr) = Return r.
Proof.
  unfold findNSECircular. rewrite Hname, Hiso, Hdate.
  replace (getDate tz t - 10) with (getDate tz t + -10) by lia.
  rewrite !setDate_shift by (unfold msPerDay in *; lia).
  rewrite !formatDMY_shift.
  replace (Day (LocalTime tz t) + -10) with (Day (LocalTime tz t) - 10) by lia.
  unfold tryCatch, bindIO, perform.
  destruct (nseApi W _ _) as [[rows|]|msg]; cbn.
  - destruct (filter _ rows); cbn; eauto.
  - eauto.
  - eauto.
Qed.

Lemma findNSECircular_window_witness :
  snd (findNSECircular hostUTC emptyWorld (Some "Acme Widgets Ltd")
         (Some "2025-09-20") [])
  = push [] (NseApiRequest (nseDay (Day (LocalTime hostUTC listingInstant) - 10))
                           (nseDay (Day (LocalTime hostUTC listingInstant) + 10)))
  /\ exists r, fst (findNSECircular hostUTC emptyWorld (Some "Acme Widgets Ltd")
                      (Some "2025-09-20") []) = Return r.
Proof.
  apply (findNSECircular_window hostUTC emptyWorld (Some "Acme Widgets Ltd")
           (Some "2025-09-20") "Acme Widgets Ltd" "2025-09-20" listingInstant []).
  - reflexivity.
  - reflexivity.
  - reflexivity.
  - vm_compute. discriminate.
Defined.

(** ** The results of the orchestrator *)

Lemma tryNSE_classified tz W c tr :
  exists r tr', tryNSE tz W c tr = (Return r, tr')
    /\ match r with
       | None => True
       | Some obj =>
           exists data noticeId fetchedAt,
             obj = resultObject data "NSE" noticeId fetchedAt
             /\ unlockEvents data <> []
       end.
Proof.
  assert (Hnone : forall tr' : list Effect,
             exists (r : option JsObject) tr'',
               (Return (None : option JsObject), tr') = (Return r, tr'')
               /\ match r with
                  | None => True
                  | Some obj =>
                      exists data noticeId fetchedAt,
                        obj = resultObject data "NSE" noticeId fetchedAt
                        /\ unlockEvents data <> []
                  end).
  { intros tr'. exists None, tr'. split; [reflexivity|exact I]. }
  unfold tryNSE. destruct c as [c|]; [|apply Hnone].
  destruct (truthyStr (zipUrl c)) as [url|]; [|apply Hnone].
  unfold tryCatch, bindIO, perform, ret.
  destruct (nseAnnexure W url) as [[buf|]|msg]; [|apply Hnone|apply Hnone].
  unfold parseLockInDataBuffer, bindIO, perform, liftC.
  destruct (pdfText W buf) as [text|msg]; [|apply Hnone].
  destruct (parseLockInData tz text) as [data|msg]; [|apply Hnone].
  destruct (0 <? List.length (unlockEvents data))%nat eqn:E; [|apply Hnone].
  do 2 eexists. split; [reflexivity|].
  exists data, (displayNo c), (nowISO W). split; auto.
  intros Hnil. rewrite Hnil in E. discriminate.
Qed.

Lemma truthyStr_nonempty o s : truthyStr o = Some s -> s <> "".
Proof.
  unfold truthyStr. destruct o as [x|]; [|discriminate].
  destruct (String.eqb x "") eqn:E; [discriminate|].
  intros H. inversion H; subst. now apply String.eqb_neq.
Qed.

Lemma delegateOrNull_classified companyName exchange iso :
  iso <> "" -> classified (delegateOrNull companyName exchange iso).
Proof.
  intros Hiso. unfold delegateOrNull. destruct (includes _ _); simpl; auto.
  right. right. right. exists iso, companyName. auto.
Qed.

(** X24: [getUnlockPercentages] never throws.  Its result is null,
    an NSE result with at least one unlock event, a BSE result, a request
    for a client fetch, or a request for a client search that carries a
    non-empty listing date. *)
Theorem getUnlockPercentages_results (tz : Z) (W : World)
    (companyName exchange listingDateISO : option string) :
  exists r,
    fst (run (getUnlockPercentages tz W companyName exchange listingDateISO))
    = Return r
    /\ classified r.
Proof.
  unfold run, getUnlockPercentages.
  destruct (truthyStr listingDateISO) as [iso|] eqn:Hiso.
  2:{ exists None. split; [reflexivity|exact I]. }
  apply truthyStr_nonempty in Hiso.
  unfold tryCatch at 1. unfold bindIO at 1.
  destruct (findNSECircular tz W companyName (Some iso) []) as [[c|msg] tr1].
  2:{ exists None. split; [reflexivity|exact I]. }
  unfold bindIO at 1.
  destruct (tryNSE_classified tz W c tr1) as (r1 & tr2 & -> & Hr1).
  destruct r1 as [obj|].
  { exists (Some obj). split; [reflexivity|]. left. exact Hr1. }
  unfold bindIO at 1.
  destruct (findBSENotice tz W companyName (Some iso) tr2) as [[n|msg] tr3].
  2:{ exists None. split; [reflexivity|exact I]. }
  destruct n as [n|].
  2:{ eexists. split; [reflexivity|]. now apply delegateOrNull_classified. }
  destruct (truthyStr (annexureUrl n)) as [url|].
  - unfold tryCatch, bindIO.
    destruct (downloadBSEPDF W url tr3) as [[buf|msg] tr4].
    + destruct (parseLockInDataBuffer tz W buf tr4) as [[data|msg] tr5].
      * eexists. split; [reflexivity|]. right. left.
        exists data, (noticeId n), (nowISO W). reflexivity.
      * eexists. split; [reflexivity|]. right. right. left.
        exists (noticeId n). reflexivity.
    + eexists. split; [reflexivity|]. right. right. left.
      exists (noticeId n). reflexivity.
  - destruct (String.eqb (noticeId n) ""); cbn [negb].
    + eexists. split; [reflexivity|]. now apply delegateOrNull_classified.
    + eexists. split; [reflexivity|]. right. right. left.
      exists (noticeId n). reflexivity.
Qed.

(** ** The two-part split *)



(** ** The entry taken from the NSE archive *)

Lemma cml_not_shp s : startsWith s "cml" = true -> startsWith s "shp" = false.
Proof.
  unfold startsWith. destruct s as [|b s]; cbn [prefix]; [discriminate|].
  destruct (ascii_dec "c" b) as [e|]; [|discriminate].
  intros _. destruct (ascii_dec "s" b) as [e'|]; [|reflexivity].
  rewrite <- e in e'. discriminate.
Qed.

(** X15: The entry that [downloadNSEAnnexure] reads from the archive
    is one of its entries, ends in [.pdf] and never starts with [shp]
    (case-insensitively); it is a [cml*.pdf] entry whenever the archive has
    one; and null is returned only when every [.pdf] entry starts with
    [shp]. *)
Theorem selectAnnexureEntry_choice (entryNames : list string) :
  match selectAnnexureEntry entryNames with
  | Some n =>
      In n entryNames
      /\ endsWith (toLowerCase n) ".pdf" = true
      /\ startsWith (toLowerCase n) "shp" = false
      /\ (isCmlPdf n = true
          \/ forall m, In m entryNames -> isCmlPdf m = false)
  | None =>
      forall m, In m entryNames ->
        endsWith (toLowerCase m) ".pdf" = true ->
        startsWith (toLowerCase m) "shp" = true
  end.
Proof.
  unfold selectAnnexureEntry.
  destruct (find _ entryNames) as [n|] eqn:E1.
  - apply find_some in E1. destruct E1 as [Hin H].
    apply andb_true_iff in H. destruct H as [Hc Hp].
    repeat split; auto.
    + now apply cml_not_shp.
    + left. unfold isCmlPdf. now rewrite Hc, Hp.
  - match goal with
    | |- match ?f with _ => _ end => destruct f as [n|] eqn:E2
    end.
    + apply find_some in E2. destruct E2 as [Hin H].
      apply andb_true_iff in H. destruct H as [Hp Hs].
      apply negb_true_iff in Hs.
      repeat split; auto.
      right. intros m Hm. exact (find_none _ _ E1 m Hm).
    + intros m Hm Hp. pose proof (find_none _ _ E2 m Hm) as H.
      cbv beta in H. rewrite Hp in H. simpl in H.
      now apply negb_false_iff in H.
Qed.

(** ** The annexure link of a notice page *)

Lemma rule_annexureRule :
  (forall t h, ruleAnnexureI t h = true -> annexureRule t h = true)
  /\ (forall t h, rulePdfText t h = true -> annexureRule t h = true)
  /\ (forall t h, ruleAnnexure1 t h = true -> annexureRule t h = true)
  /\ (forall t h, ruleDownloadAttach t h = true -> annexureRule t h = true).
Proof.
  unfold annexureRule. repeat split; intros t h ->;
    rewrite ?orb_true_r; reflexivity.
Qed.

Lemma anchorPass_linkOf rule links url :
  (forall t h, rule t h = true -> annexureRule t h = true) ->
  linkOf links url -> linkOf links (anchorPass rule url links).
Proof.
  intros Hrule. unfold anchorPass.
  assert (Hgen : forall l, incl l links -> forall u, linkOf links u ->
            linkOf links
              (fold_left
                 (fun url a =>
                    let text := anchorText a in
                    let href := anchorHref a in
                    if mentionsAnnexureII text then url
                    else if rule text href
                         then if truthy url then url else Some href
                         else url) l u)).
  { induction l as [|a l IH]; intros Hincl u Hu; simpl; auto.
    apply IH; [intros x Hx; apply Hincl; now right|].
    destruct (mentionsAnnexureII (anchorText a)) eqn:E2; auto.
    destruct (rule (anchorText a) (anchorHref a)) eqn:Er; auto.
    destruct (truthy u); auto.
    right. exists a. split; [apply Hincl; now left|].
    split; [split; auto|reflexivity]. }
  intros Hu. apply Hgen; auto. apply incl_refl.
Qed.

Lemma nextPass_linkOf rule links url :
  (forall t h, rule t h = true -> annexureRule t h = true) ->
  linkOf links url -> linkOf links (nextPass rule links url).
Proof.
  intros Hrule Hu. unfold nextPass. destruct (truthy url); auto.
  now apply anchorPass_linkOf.
Qed.

Lemma parseNoticeHTML_fields page noticeId0 normalizedSearch n :
  parseNoticeHTML page noticeId0 normalizedSearch = Some n ->
  noticeId n = noticeId0 /\ exists u, annexureUrl n = Some u /\ u <> "".
Proof.
  unfold parseNoticeHTML. cbv zeta.
  destruct (negb (String.eqb normalizedSearch "") && _); [discriminate|].
  destruct (truthyStr _) as [url|] eqn:Eu; [|discriminate].
  intros H. inversion H; subst; clear H. cbn [noticeId annexureUrl].
  split; [reflexivity|]. exists url. split; [reflexivity|].
  now apply truthyStr_nonempty in Eu.
Qed.

(** X22: A notice that [parseNoticeHTML] returns bears the given
    identifier, and its annexure address is the non-empty [href] of an
    anchor of the page that does not mention Annexure II and satisfies one
    of the conditions of the four passes; with a non-empty search name, the
    normalized body contains that name. *)
Theorem parseNoticeHTML_link (page : Page) (noticeId0 normalizedSearch : string)
    (n : BseNotice)
    (H : parseNoticeHTML page noticeId0 normalizedSearch = Some n) :
  noticeId n = noticeId0
  /\ (exists a, In a (anchors page) /\ eligibleAnchor a
                /\ anchorHref a <> "" /\ annexureUrl n = Some (anchorHref a))
  /\ (normalizedSearch <> "" ->
      includes (stripNonAlnum (toUpperCase (bodyText page))) normalizedSearch
      = true).
Proof.
  unfold parseNoticeHTML in H. cbv zeta in H.
  destruct (negb (String.eqb normalizedSearch "") && _) eqn:Eg; [discriminate|].
  destruct (truthyStr _) as [url|] eqn:Eu; [|discriminate].
  inversion H; subst; clear H. cbn [noticeId annexureUrl].
  split; [reflexivity|]. split.
  - destruct rule_annexureRule as (R1 & R2 & R3 & R4).
    assert (Hl : linkOf (anchors page)
              (nextPass ruleDownloadAttach (anchors page)
                 (nextPass ruleAnnexure1 (anchors page)
                    (nextPass rulePdfText (anchors page)
                       (anchorPass ruleAnnexureI None (anchors page)))))).
    { repeat (apply nextPass_linkOf; auto).
      apply anchorPass_linkOf; auto. now left. }
    destruct Hl as [Hl|(a & Ha & He & Hl)]; rewrite Hl in Eu.
    + discriminate.
    + exists a. repeat split; try apply He; auto.
      * intros Hempty. rewrite Hempty in Eu. discriminate.
      * cbn in Eu. destruct (String.eqb (anchorHref a) ""); [discriminate|].
        now inversion Eu.
  - intros Hne. apply String.eqb_neq in Hne. rewrite Hne in Eg.
    cbn [negb andb] in Eg. apply orb_false_iff in Eg. destruct Eg as [_ Eg].
    now apply negb_false_iff in Eg.
Qed.

Lemma parseNoticeHTML_link_witness :
  noticeId (mkBseNotice "20250918-5" (Some "/a1.pdf") "ACME WIDGETS LIMITED")
  = "20250918-5"
  /\ (exists a, In a (anchors samplePage) /\ eligibleAnchor a
                /\ anchorHref a <> ""
                /\ annexureUrl (mkBseNotice "20250918-5" (Some "/a1.pdf")
                                  "ACME WIDGETS LIMITED")
                   = Some (anchorHref a))
  /\ ("ACME WIDGETS" <> "" ->
      includes (stripNonAlnum (toUpperCase (bodyText samplePage))) "ACME WIDGETS"
      = true).
Proof.
  apply (parseNoticeHTML_link samplePage "20250918-5" "ACME WIDGETS").
  vm_compute. reflexivity.
Defined.

(** ** The session cache *)

Lemma joinCookies_refresh now hp :
  let '(c, cache', req) := refreshSession now hp in
  bseCookies cache' = Some c /\ bseCookieTime cache' = now /\ req = true.
Proof.
  unfold refreshSession.
  destruct hp as [[[|c cs]|]|msg]; cbn; auto.
Qed.

(** X16: [getBSESession] always leaves the returned cookie string in
    the cache.  It answers from the cache only when the cached cookies are
    non-empty and younger than the time to live; after a request, a call
    within the next ten minutes makes no request and returns the same
    non-empty cookies, while empty cookies are never served from the
    cache. *)
Theorem getBSESession_cache (cache : SessionCache) (now : Z)
    (homepage : completion (option (list string))) :
  let '(cookies, cache', requested) := getBSESession cache now homepage in
  bseCookies cache' = Some cookies
  /\ (requested = false ->
      cache' = cache /\ cookies <> ""
      /\ now - bseCookieTime cache < BSE_COOKIE_TTL)
  /\ (requested = true ->
      bseCookieTime cache' = now
      /\ forall now' homepage',
           now <= now' < now + BSE_COOKIE_TTL -> cookies <> "" ->
           getBSESession cache' now' homepage' = (cookies, cache', false)).
Proof.
  assert (Hre : forall hp,
             let '(cookies, cache', requested) := refreshSession now hp in
             bseCookies cache' = Some cookies
             /\ (requested = false ->
                 cache' = cache /\ cookies <> ""
                 /\ now - bseCookieTime cache < BSE_COOKIE_TTL)
             /\ (requested = true ->
                 bseCookieTime cache' = now
                 /\ forall now' homepage',
                      now <= now' < now + BSE_COOKIE_TTL -> cookies <> "" ->
                      getBSESession cache' now' homepage'
                      = (cookies, cache', false))).
  { intros hp. pose proof (joinCookies_refresh now hp) as H.
    destruct (refreshSession now hp) as [[c cache'] req].
    destruct H as (Hc & Ht & Hr). subst req.
    split; [exact Hc|]. split; [discriminate|].
    intros _. split; [exact Ht|].
    intros now' hp' Hn Hne. unfold getBSESession. rewrite Hc, Ht.
    cbn [truthyStr]. apply String.eqb_neq in Hne. rewrite Hne.
    replace (now' - now <? BSE_COOKIE_TTL) with true
      by (symmetry; apply Z.ltb_lt; lia).
    reflexivity. }
  unfold getBSESession.
  destruct (truthyStr (bseCookies cache)) as [cookies|] eqn:Ec; [|apply Hre].
  destruct (now - bseCookieTime cache <? BSE_COOKIE_TTL) eqn:Et; [|apply Hre].
  pose proof (truthyStr_nonempty _ _ Ec) as Hne.
  assert (Ex : bseCookies cache = Some cookies).
  { unfold truthyStr in Ec. destruct (bseCookies cache) as [x|]; [|discriminate].
    destruct (String.eqb x ""); [discriminate|]. exact Ec. }
  split; [exact Ex|]. split; [|discriminate].
  intros _. repeat split; auto. now apply Z.ltb_lt.
Qed.

(** ** The search of the SME notice list *)

Lemma searchLinks_first check words links :
  match searchLinks check words links with
  | Some r =>
      exists pre link post id,
        links = (pre ++ link :: post)%list
        /\ (forall l, In l pre -> linkMatch words l = None)
        /\ linkMatch words link = Some id
        /\ r = match check id with
               | Some n => n
               | None => mkBseNotice id None (trim (fst link))
               end
  | None => forall l, In l links -> linkMatch words l = None
  end.
Proof.
  induction links as [|link rest IH]; cbn [searchLinks].
  - intros l [].
  - assert (Hskip : linkMatch words link = None ->
              match searchLinks check words rest with
              | Some r =>
                  exists pre link0 post id,
                    link :: rest = (pre ++ link0 :: post)%list
                    /\ (forall l, In l pre -> linkMatch words l = None)
                    /\ linkMatch words link0 = Some id
                    /\ r = match check id with
                           | Some n => n
                           | None => mkBseNotice id None (trim (fst link0))
                           end
              | None => forall l, In l (link :: rest) -> linkMatch words l = None
              end).
    { intros Hm. destruct (searchLinks check words rest) as [r|].
      - destruct IH as (pre & l0 & post & id & -> & Hpre & Hl0 & Hr).
        exists (link :: pre), l0, post, id. repeat split; auto.
        intros l [<-|Hl]; auto.
      - intros l [<-|Hl]; auto. }
    unfold linkMatch in Hskip at 1.
    destruct (wordsMatch words _) eqn:Ew; [|now apply Hskip].
    destruct (regexExec pageParamRegex (anchorHref link)) as [m|] eqn:Em;
      [|now apply Hskip].
    assert (Hm : linkMatch words link = Some (dollar 1 m)).
    { unfold linkMatch. now rewrite Ew, Em. }
    destruct (check (dollar 1 m)) as [r|] eqn:Eck.
    + exists [], link, rest, (dollar 1 m). rewrite Eck. repeat split; auto.
      intros l [].
    + exists [], link, rest, (dollar 1 m). rewrite Eck. repeat split; auto.
      intros l [].
Qed.

(** X18: [searchBSESMENotices] decides on the first listing link, in
    document order, whose text matches the search words and whose address
    bears a page parameter: the result is what [checkNotice] finds for that
    identifier, or else the identifier with a null annexure; later links
    are not considered.  It returns null only when no listing link
    qualifies. *)
Theorem searchBSESMENotices_first_link (check : string -> option BseNotice)
    (searchWords : list string) (page : Page) :
  match searchBSESMENotices check searchWords page with
  | Some r =>
      exists pre link post id,
        filter isListingLink (anchors page) = (pre ++ link :: post)%list
        /\ In link (anchors page)
        /\ (forall l, In l pre -> linkMatch searchWords l = None)
        /\ linkMatch searchWords link = Some id
        /\ r = match check id with
               | Some n => n
               | None => mkBseNotice id None (trim (fst link))
               end
  | None =>
      forall l, In l (anchors page) -> isListingLink l = true ->
                linkMatch searchWords l = None
  end.
Proof.
  unfold searchBSESMENotices.
  pose proof (searchLinks_first check searchWords
                (filter isListingLink (anchors page))) as H.
  destruct (searchLinks _ _ _) as [r|].
  - destruct H as (pre & link & post & id & Hl & Hpre & Hm & Hr).
    exists pre, link, post, id. repeat split; auto.
    assert (Hin : In link (filter isListingLink (anchors page))).
    { rewrite Hl. apply in_or_app. right. now left. }
    apply filter_In in Hin. tauto.
  - intros l Hl Hf. apply H. apply filter_In. auto.
Qed.

(** ** Quoting an address for the shell *)

Lemma shellWord_escapeQuotes_open url :
  shellWord true (escapeQuotes url ++ "'") = Some url.
Proof.
  induction url as [|a url IH]; [reflexivity|].
  cbn [escapeQuotes]. destruct (Ascii.eqb a "'") eqn:E.
  - apply Ascii.eqb_eq in E. subst a.
    change (shellWord true (("'\''" ++ escapeQuotes url) ++ "'"))
      with (option_map (String "'")
              (shellWord true (escapeQuotes url ++ "'"))).
    now rewrite IH.
  - cbn [append shellWord]. rewrite E, IH. reflexivity.
Qed.

(** X17: The quoting of [curlFetchHTML] and [curlFetchBinary] is
    sound for every address: the escaped address between single quotes is
    one shell word, and the shell reads it back as the address itself. *)
Theorem escapeQuotes_shell_round_trip (url : string) :
  shellWord false ("'" ++ escapeQuotes url ++ "'") = Some url.
Proof.
  cbn [append shellWord]. cbn. apply shellWord_escapeQuotes_open.
Qed.

(** ** The requests of the BSE search *)

Lemma throughFirst_flat_length {A B C} (g : A -> option B) (f : A -> list C) xs :
  (List.length (flat_map f (throughFirst g xs))
   <= List.length (flat_map f xs))%nat.
Proof.
  induction xs as [|x xs IH]; simpl; auto.
  rewrite !length_app. destruct (g x); simpl; lia.
Qed.

Lemma flat_map_length_bound {A C} (f : A -> list C) k xs :
  (forall x, (List.length (f x) <= k)%nat) ->
  (List.length (flat_map f xs) <= k * List.length xs)%nat.
Proof.
  intros Hf. induction xs as [|x xs IH]; simpl; [lia|].
  rewrite length_app. specialize (Hf x). lia.
Qed.

Lemma dedup_length xs : (List.length (dedup xs) <= List.length xs)%nat.
Proof.
  induction xs as [|x xs IH]; simpl; auto.
  pose proof (filter_length_le (fun y => negb (String.eqb x y)) (dedup xs)).
  lia.
Qed.

Lemma Forall_flat_map {A C} (P : C -> Prop) (f : A -> list C) xs :
  (forall x, Forall P (f x)) -> Forall P (flat_map f xs).
Proof.
  intros Hf. induction xs as [|x xs IH]; simpl; auto.
  apply Forall_app. auto.
Qed.

(** X23: For a given name and date, [findBSENotice] searches the SME
    list first; a hit is returned with no further request.  Otherwise a
    session request follows and then only probes, all for the normalized
    name, at most 1100 of them (11 dates, 100 identifiers); it never
    throws. *)
Theorem findBSENotice_requests (tz : Z) (W : World)
    (companyName listingDateISO : option string) (name iso : string)
    (Hname : truthyStr companyName = Some name)
    (Hiso : truthyStr listingDateISO = Some iso) :
  (forall n, smeSearch W (bseSearchWords name) = Some n ->
     run (findBSENotice tz W companyName listingDateISO)
     = (Return (Some n), [SmeNoticeSearch (bseSearchWords name)]))
  /\ (smeSearch W (bseSearchWords name) = None ->
      exists r probes,
        run (findBSENotice tz W companyName listingDateISO)
        = (Return r,
           SmeNoticeSearch (bseSearchWords name) :: BseSessionRequest :: probes)
        /\ Forall (isProbeFor (bseNormalizedSearch name)) probes
        /\ (List.length probes <= 1100)%nat).
Proof.
  unfold run, findBSENotice. rewrite Hname, Hiso.
  fold (bseNormalizedSearch name).
  change (significantWords (bseNormalizedSearch name)) with (bseSearchWords name).
  unfold bindIO at 1. unfold perform at 1. cbn [push app].
  split.
  - intros n ->. reflexivity.
  - intros ->. unfold bindIO, perform. cbn [push app].
    destruct (Date_parse W iso) as [t|].
    + rewrite (firstIO_run _
                 (fun d => firstSome
                    (fun i => noticeProbe W (noticeIdOf d i)
                                (bseNormalizedSearch name)) (seq 1 100))
                 (fun d => map (fun i => NoticeProbe (noticeIdOf d i)
                                           (bseNormalizedSearch name))
                    (flat_map batchIds
                       (throughFirst
                          (fun start => firstSome
                             (fun i => noticeProbe W (noticeIdOf d i)
                                         (bseNormalizedSearch name))
                             (batchIds start))
                          (map (fun b => (1 + 10 * b)%nat) (seq 0 10)))))).
      2:{ intros d tr'. apply scanNoticesOnDate_run. }
      cbn [app]. do 2 eexists. split; [reflexivity|]. split.
      * apply Forall_flat_map. intros d. apply Forall_forall.
        intros e He. apply in_map_iff in He. destruct He as (i & <- & _).
        reflexivity.
      * etransitivity; [apply throughFirst_flat_length|].
        etransitivity.
        { apply (flat_map_length_bound _ 100). intros d.
          rewrite length_map.
          etransitivity; [apply throughFirst_flat_length|]. reflexivity. }
        pose proof (dedup_length (datesToScan tz t)) as Hd.
        assert (Hl : List.length (datesToScan tz t) = 11%nat) by reflexivity.
        lia.
    + unfold ret. exists None, []. repeat split; auto. simpl. lia.
Qed.

Lemma findBSENotice_requests_witness :
  (forall n, smeSearch emptyWorld (bseSearchWords "Acme Widgets Ltd") = Some n ->
     run (findBSENotice hostUTC emptyWorld (Some "Acme Widgets Ltd")
            (Some "2025-09-20"))
     = (Return (Some n), [SmeNoticeSearch (bseSearchWords "Acme Widgets Ltd")]))
  /\ (smeSearch emptyWorld (bseSearchWords "Acme Widgets Ltd") = None ->
      exists r probes,
        run (findBSENotice hostUTC emptyWorld (Some "Acme Widgets Ltd")
               (Some "2025-09-20"))
        = (Return r,
           SmeNoticeSearch (bseSearchWords "Acme Widgets Ltd")
           :: BseSessionRequest :: probes)
        /\ Forall (isProbeFor (bseNormalizedSearch "Acme Widgets Ltd")) probes
        /\ (List.length probes <= 1100)%nat).
Proof.
  apply (findBSENotice_requests hostUTC emptyWorld (Some "Acme Widgets Ltd")
           (Some "2025-09-20") "Acme Widgets Ltd" "2025-09-20").
  - reflexivity.
  - reflexivity.
Defined.

(** ** The requests behind an NSE result *)

Lemma findNSECircular_found tz W companyName listingDateISO tr :
  exists r tr',
    findNSECircular tz W companyName listingDateISO tr = (Return r, tr')
    /\ (r <> None -> exists fromDate toDate,
          tr' = push tr (NseApiRequest fromDate toDate)).
Proof.
  unfold findNSECircular.
  destruct (truthyStr companyName) as [name|];
    [|exists None, tr; split; [reflexivity|congruence]].
  destruct (truthyStr listingDateISO) as [iso|];
    [|exists None, tr; split; [reflexivity|congruence]].
  destruct (Date_parse W iso) as [t|];
    [|exists None, tr; split; [reflexivity|congruence]].
  unfold tryCatch, bindIO, perform.
  destruct (nseApi W _ _) as [[rows|]|msg]; cbn.
  - destruct (filter _ rows); cbn; do 2 eexists; split; try reflexivity; eauto.
  - do 2 eexists; split; try reflexivity; eauto.
  - do 2 eexists; split; try reflexivity; eauto.
Qed.

Lemma tryNSE_found tz W c tr :
  exists r tr',
    tryNSE tz W c tr = (Return r, tr')
    /\ match r with
       | Some obj =>
           (exists data noticeId fetchedAt,
               obj = resultObject data "NSE" noticeId fetchedAt)
           /\ c <> None
           /\ exists url buf, tr' = (tr ++ [NseZipDownload url; PdfParse buf])%list
       | None => True
       end.
Proof.
  assert (Hnone : forall tr' : list Effect,
             exists (r : option JsObject) tr'',
               (Return (None : option JsObject), tr') = (Return r, tr'')
               /\ match r with
                  | Some obj =>
                      (exists data noticeId fetchedAt,
                          obj = resultObject data "NSE" noticeId fetchedAt)
                      /\ c <> None
                      /\ exists url buf,
                           tr'' = (tr ++ [NseZipDownload url; PdfParse buf])%list
                  | None => True
                  end).
  { intros tr'. exists None, tr'. split; [reflexivity|exact I]. }
  unfold tryNSE. destruct c as [c|]; [|apply Hnone].
  destruct (truthyStr (zipUrl c)) as [url|]; [|apply Hnone].
  unfold tryCatch, bindIO, perform, ret.
  destruct (nseAnnexure W url) as [[buf|]|msg]; [|apply Hnone|apply Hnone].
  unfold parseLockInDataBuffer, bindIO, perform, liftC.
  destruct (pdfText W buf) as [text|msg]; [|apply Hnone].
  destruct (parseLockInData tz text) as [data|msg]; [|apply Hnone].
  destruct (0 <? List.length (unlockEvents data))%nat eqn:E; [|apply Hnone].
  do 2 eexists. split; [reflexivity|]. split; [eauto|]. split; [discriminate|].
  exists url, buf. unfold push. now rewrite <- app_assoc.
Qed.

(** X25: When [getUnlockPercentages] answers with an NSE result, it
    made exactly three requests -- the NSE API, the archive, the PDF
    parser -- and contacted no BSE service. *)
Theorem nse_result_requests (tz : Z) (W : World)
    (companyName exchange listingDateISO : option string)
    (data : LockInData) (noticeId0 fetchedAt : string)
    (H : fst (run (getUnlockPercentages tz W companyName exchange listingDateISO))
         = Return (Some (resultObject data "NSE" noticeId0 fetchedAt))) :
  exists fromDate toDate url buf,
    snd (run (getUnlockPercentages tz W companyName exchange listingDateISO))
    = [NseApiRequest fromDate toDate; NseZipDownload url; PdfParse buf].
Proof.
  destruct (run (getUnlockPercentages tz W companyName exchange listingDateISO))
    as [res tr] eqn:E.
  cbn [fst snd] in *. subst res.
  revert E. unfold run, getUnlockPercentages.
  destruct (truthyStr listingDateISO) as [iso|]; [|discriminate].
  unfold tryCatch at 1. unfold bindIO at 1.
  destruct (findNSECircular_found tz W companyName (Some iso) [])
    as (c & tr1 & -> & Hc).
  unfold bindIO at 1.
  destruct (tryNSE_found tz W c tr1) as (r1 & tr2 & -> & Hr1).
  destruct r1 as [obj|].
  - destruct Hr1 as (_ & Hne & url & buf & ->).
    destruct (Hc Hne) as (f & t & ->).
    unfold ret. intros E. inversion E; subst.
    exists f, t, url, buf. reflexivity.
  - unfold bindIO at 1.
    destruct (findBSENotice tz W companyName (Some iso) tr2) as [[n|msg] tr3];
      [|discriminate].
    destruct n as [n|].
    + destruct (truthyStr (annexureUrl n)) as [url|].
      * unfold tryCatch, bindIO.
        destruct (downloadBSEPDF W url tr3) as [[buf|msg] tr4]; [|discriminate].
        destruct (parseLockInDataBuffer tz W buf tr4) as [[d|msg] tr5];
          discriminate.
      * destruct (String.eqb (noticeId n) ""); cbn [negb].
        -- unfold delegateOrNull. destruct (includes _ _); discriminate.
        -- discriminate.
    + unfold delegateOrNull. destruct (includes _ _); discriminate.
Qed.

Lemma nse_result_requests_witness :
  exists fromDate toDate url buf,
    snd (run (getUnlockPercentages hostUTC nseWorld (Some "Acme Widgets Ltd")
                (Some "NSE") (Some "2025-09-20")))
    = [NseApiRequest fromDate toDate; NseZipDownload url; PdfParse buf].
Proof.
  apply (nse_result_requests hostUTC nseWorld (Some "Acme Widgets Ltd")
           (Some "NSE") (Some "2025-09-20") twoRowsData "NSE/CML/70400"
           "2025-10-01T00:00:00.000Z").
  vm_compute. reflexivity.
Defined.

(** ** Fetching a notice page *)

(** X21: [checkNotice] requests the page of the notice once or
    twice, the second time with [curl]; a notice it returns bears the
    requested identifier and a non-empty annexure address; and on a status
    from 400 to 499 other than 403 it returns null without a second
    request. *)
Theorem checkNotice_outcome
    (axiosGet : string -> completion (Z * string))
    (curlFetchHTML : string -> option string)
    (load : string -> completion Page)
    (noticeId0 normalizedSearch : string) :
  let url := (BSE_BASE ++ "/DispNewNoticesCirculars.aspx?page=" ++ noticeId0)%string in
  let out := checkNotice axiosGet curlFetchHTML load noticeId0 normalizedSearch in
  (forall n, fst out = Some n ->
     noticeId n = noticeId0
     /\ exists u, annexureUrl n = Some u /\ u <> "")
  /\ (snd out = [AxiosPage url] \/ snd out = [AxiosPage url; CurlPage url])
  /\ (forall status data,
        axiosGet url = Return (status, data) ->
        400 <= status < 500 -> status <> 403 ->
        out = (None, [AxiosPage url])).
Proof.
  intros url out.
  assert (Hparse : forall html n,
             match truthyStr html with
             | None => None
             | Some h =>
                 match load h with
                 | Return page => parseNoticeHTML page noticeId0 normalizedSearch
                 | Throw _ => None
                 end
             end = Some n ->
             noticeId n = noticeId0
             /\ exists u, annexureUrl n = Some u /\ u <> "").
  { intros html n H. destruct (truthyStr html) as [h|]; [|discriminate].
    destruct (load h) as [page|msg]; [|discriminate].
    now apply parseNoticeHTML_fields in H. }
  subst out. unfold checkNotice. fold url. cbv zeta.
  destruct (axiosGet url) as [[status data]|msg] eqn:Ea.
  - destruct (500 <=? status) eqn:E5.
    { cbn [fst snd]. split; [apply Hparse|]. split; [now right|].
      intros st d Hst Hr. inversion Hst; subst. apply Z.leb_le in E5. lia. }
    destruct (status =? 403) eqn:E3.
    { cbn [fst snd]. split; [apply Hparse|]. split; [now right|].
      intros st d Hst Hr Hn. inversion Hst; subst. apply Z.eqb_eq in E3. lia. }
    destruct (400 <=? status) eqn:E4.
    { cbn [fst snd]. split; [discriminate|]. split; [now left|]. reflexivity. }
    cbn [fst snd]. split; [apply Hparse|]. split; [now left|].
    intros st d Hst Hr. inversion Hst; subst. apply Z.leb_gt in E4. lia.
  - cbn [fst snd]. split; [apply Hparse|]. split; [now right|]. discriminate.
Qed.

(** ** The dates of [parseBSEDate] *)




(** ** Replacing the matches of a regular expression *)











